(** * Bulk sender: contact normalisation, loading, and the send loop

    A shallow embedding of [scripts/whatsapp-bulk-sender.mjs].  JavaScript
    strings are [string]s; an integral number is a [Z], read as the double
    nearest to it; the delays of the command line are rounded to doubles,
    as is their product with 1000; the milliseconds that go through
    [Math.random] in the loop are exact rationals [Q].  The browser driver and
    the spreadsheet parser are external: the driver is a family of oracles
    over an abstract world, the parser's output (the row objects) is the
    loader's input. *)

From Stdlib Require Import String Ascii List Bool Arith ZArith NArith QArith Qround Qpower.
From Stdlib Require Import Lia Lqa.
From Stdlib Require Import DecimalString.
Import ListNotations.

Close Scope Q_scope.
Local Open Scope string_scope.

(** ** Doubles

    Rounding of an exact value to the nearest double, ties to even, with
    the subnormal range; a result beyond the largest double is told apart
    by its size where the script can meet one. *)

Definition pow2 (z : Z) : Q := (2 ^ z)%Q.

(** The integer [l] with [2^l <= q < 2^(l+1)], for a positive [q]. *)
Definition floorLog2 (q : Q) : Z :=
  let k := (Z.log2 (Qnum q) - Z.log2 (Z.pos (Qden q)))%Z in
  if Qle_bool (pow2 k) q then k else (k - 1)%Z.

Definition roundHalfEven (x : Q) : Z :=
  let f := Qfloor x in
  match (x - inject_Z f ?= 1 # 2)%Q with
  | Lt => f
  | Gt => (f + 1)%Z
  | Eq => if Z.even f then f else (f + 1)%Z
  end.

(** A positive value rounded to 53 significant bits, or to a multiple of
    [2^-1074] below the normal range. *)
Definition roundPositive (q : Q) : Q :=
  let e := Z.max (floorLog2 q - 52) (-1074) in
  (inject_Z (roundHalfEven (q / pow2 e)) * pow2 e)%Q.

Definition toDouble (q : Q) : Q :=
  match (q ?= 0)%Q with
  | Eq => 0%Q
  | Gt => roundPositive q
  | Lt => (- roundPositive (- q))%Q
  end.

(** The double nearest to a non-negative integer, itself an integer. *)
Definition doubleOfZ (n : Z) : Z := Qfloor (toDouble (inject_Z n)).

Definition decimalOf (x : Z) : string := NilZero.string_of_uint (N.to_uint (Z.to_N x)).

Fixpoint zeros (n : nat) : string :=
  match n with
  | O => EmptyString
  | S n' => String "0" (zeros n')
  end.

(** [Number::toString], the choice of digits: the shortest [s] and the
    power of ten [p] with [s * 10^p] rounding to the double [x]; of two
    candidates of the same length the one nearer to [x], the even one on a
    tie.  The search starts at the number of digits of [x]. *)
Fixpoint shortestDigits (p : nat) (x : Z) : Z * nat :=
  let scale := (10 ^ Z.of_nat p)%Z in
  let lo := (x / scale)%Z in
  let hi := (lo + 1)%Z in
  let okLo := (1 <=? lo)%Z && (doubleOfZ (lo * scale) =? x)%Z in
  let okHi := (doubleOfZ (hi * scale) =? x)%Z in
  if okLo || okHi then
    (if okLo && okHi then
       match (x - lo * scale ?= hi * scale - x)%Z with
       | Lt => lo
       | Gt => hi
       | Eq => if Z.even lo then lo else hi
       end
     else if okLo then lo else hi, p)
  else
    match p with
    | O => (x, O)
    | S p' => shortestDigits p' x
    end.

(** [d.ddd] followed by [e+] and the exponent. *)
Definition exponentForm (digits : string) (exponent : Z) : string :=
  match digits with
  | EmptyString => EmptyString
  | String c rest =>
      String c (if String.eqb rest EmptyString then EmptyString else String "." rest)
  end ++ "e+" ++ decimalOf exponent.

(** [String(x)] for the double [x] nearest to the integer [n]: the digits
    followed by zeros below 10^21, the exponent form from 10^21 on, and
    [Infinity] past the largest double. *)
Definition numberToString (n : Z) : string :=
  if (n =? 0)%Z then "0" else
  let x := doubleOfZ (Z.abs n) in
  (if (n <? 0)%Z then "-" else EmptyString) ++
  (if (2 ^ 1024 <=? x)%Z then "Infinity"
   else
     let (s, p) := shortestDigits (String.length (decimalOf x)) x in
     if (x <? 10 ^ 21)%Z then decimalOf s ++ zeros p
     else exponentForm (decimalOf s)
            (Z.of_nat (String.length (decimalOf s)) + Z.of_nat p - 1)).

(** Is the integral number nearest to [n] printed in exponent form? *)
Definition printsExponent (n : Z) : bool :=
  negb (n =? 0)%Z
  && (10 ^ 21 <=? doubleOfZ (Z.abs n))%Z
  && (doubleOfZ (Z.abs n) <? 2 ^ 1024)%Z.

(** ** JavaScript values and strings *)

Module Js.

(** The values a spreadsheet cell or a missing property can hold.
    [JsNumber n] is the integral number nearest to the integer [n]; a
    number that is not integral, or not a number, is not among them. *)
Inductive JsValue : Type :=
| JsUndefined
| JsString (s : string)
| JsNumber (n : Z).

(** [!!v] *)
Definition truthy (v : JsValue) : bool :=
  match v with
  | JsUndefined => false
  | JsString s => negb (String.eqb s EmptyString)
  | JsNumber n => negb (Z.eqb n 0)
  end.

(** [String(v)] *)
Definition toString (v : JsValue) : string :=
  match v with
  | JsUndefined => "undefined"
  | JsString s => s
  | JsNumber n => numberToString n
  end.

(** [a ?? b] *)
Definition nullish (a b : JsValue) : JsValue :=
  match a with
  | JsUndefined => b
  | _ => a
  end.

(** [s.replace(/[...]/g, '')] for a one-character pattern: the characters
    matching [drop] are removed, the others kept in order. *)
Fixpoint removeAll (drop : ascii -> bool) (s : string) : string :=
  match s with
  | EmptyString => EmptyString
  | String c rest =>
      if drop c then removeAll drop rest else String c (removeAll drop rest)
  end.

(** [s.startsWith(p)] *)
Definition startsWith (s p : string) : bool := String.prefix p s.

Fixpoint existsChar (p : ascii -> bool) (s : string) : bool :=
  match s with
  | EmptyString => false
  | String c rest => p c || existsChar p rest
  end.

Fixpoint forallChar (p : ascii -> bool) (s : string) : bool :=
  match s with
  | EmptyString => true
  | String c rest => p c && forallChar p rest
  end.

(** [s.split('\n')]: always at least one piece. *)
Fixpoint splitLines (s : string) : list string :=
  match s with
  | EmptyString => [EmptyString]
  | String c rest =>
      if Ascii.eqb c "010"%char then EmptyString :: splitLines rest
      else match splitLines rest with
           | [] => [String c EmptyString]
           | l :: ls => String c l :: ls
           end
  end.

End Js.
Import Js.

(** ** Phone normaliser and contact loader *)

Definition backslash : ascii := "\"%char.

(** The class [[^\\d+]] as the source writes it: inside a regular
    expression literal [\\] is an escaped backslash, so the class excludes
    the backslash, the letter [d] and [+]; the pattern matches every other
    character. *)
Definition matches_stripClass (c : ascii) : bool :=
  negb (Ascii.eqb c backslash || Ascii.eqb c "d"%char || Ascii.eqb c "+"%char).

(** The pattern [/\\+/g]: a run of one or more backslashes.  Removing every
    run removes every backslash. *)
Definition matches_backslash (c : ascii) : bool := Ascii.eqb c backslash.

Definition normalizePhone (raw : JsValue) (countryCode : string) : option string :=
  if negb (truthy raw) then None else
  let digits := removeAll matches_stripClass (toString raw) in
  if String.eqb digits EmptyString then None else
  if startsWith digits "+" then Some (removeAll matches_backslash digits) else
  if negb (String.eqb countryCode EmptyString) && negb (startsWith digits countryCode)
     && (String.length digits <=? 11)%nat
  then Some (countryCode ++ digits)
  else Some digits.

(** A row object of [sheet_to_json]: its properties in enumeration order,
    each key once. *)
Definition Row : Type := list (string * JsValue).

Definition getProp (row : Row) (key : string) : JsValue :=
  match find (fun kv => String.eqb (fst kv) key) row with
  | Some kv => snd kv
  | None => JsUndefined
  end.

(** [Object.values(row)[0]] *)
Definition firstValue (row : Row) : JsValue :=
  match row with
  | [] => JsUndefined
  | kv :: _ => snd kv
  end.

(** [row.phone ?? row.Phone ?? row.number ?? row.Number ?? Object.values(row)[0]] *)
Definition phoneCell (row : Row) : JsValue :=
  nullish (getProp row "phone")
    (nullish (getProp row "Phone")
       (nullish (getProp row "number")
          (nullish (getProp row "Number") (firstValue row)))).

(** [Set.prototype.add] on a set kept in insertion order. *)
Definition setAdd (n : string) (numbers : list string) : list string :=
  if existsb (String.eqb n) numbers then numbers else numbers ++ [n].

(** [readExcelPhones] after the workbook has been parsed into [rows];
    [if (n)] rejects [null] and the empty string alike. *)
Definition readExcelPhones (rows : list Row) (countryCode : string) : list string :=
  fold_left
    (fun numbers row =>
       match normalizePhone (phoneCell row) countryCode with
       | Some n => if String.eqb n EmptyString then numbers else setAdd n numbers
       | None => numbers
       end)
    rows [].

(** The normaliser as the specification words it (section 4.1): keep the
    digits and one leading [+]; nothing left is [null]; a leading [+] is
    dropped and the digits returned; otherwise the configured country code
    is prepended to a digit string of at most 11 digits that does not start
    with it. *)
Module Spec.

Definition isDigit (c : ascii) : bool :=
  (48 <=? nat_of_ascii c)%nat && (nat_of_ascii c <=? 57)%nat.

Definition digitsOf (s : string) : string := removeAll (fun c => negb (isDigit c)) s.

(** Is the first kept character a [+]? *)
Fixpoint leadingPlus (s : string) : bool :=
  match s with
  | EmptyString => false
  | String c rest =>
      if Ascii.eqb c "+"%char then true
      else if isDigit c then false
      else leadingPlus rest
  end.

Definition normalize (raw : string) (defaultCountryCode : string) : option string :=
  let digits := digitsOf raw in
  if String.eqb digits EmptyString then None else
  if leadingPlus raw then Some digits else
  if negb (String.eqb defaultCountryCode EmptyString)
     && negb (startsWith digits defaultCountryCode)
     && (String.length digits <=? 11)%nat
  then Some (defaultCountryCode ++ digits)
  else Some digits.

(** The loader as the specification words it (section 4.2): the
    identifiers of the rows that have one, each kept at its first
    occurrence. *)
Fixpoint distinctInOrder (seen : list string) (l : list string) : list string :=
  match l with
  | [] => []
  | x :: rest =>
      if existsb (String.eqb x) seen then distinctInOrder seen rest
      else x :: distinctInOrder (seen ++ [x]) rest
  end.

End Spec.

(** The identifiers the rows yield, one per row that has one, duplicates
    included. *)
Fixpoint identifiers (rows : list Row) (countryCode : string) : list string :=
  match rows with
  | [] => []
  | row :: rest =>
      match normalizePhone (phoneCell row) countryCode with
      | Some n =>
          if String.eqb n EmptyString then identifiers rest countryCode
          else n :: identifiers rest countryCode
      | None => identifiers rest countryCode
      end
  end.

(** The sheet of the loader example: a column [Number] with a number, the
    same number again, and a blank cell. *)
Definition exampleSheet : list Row :=
  [ [("Number", JsString "+1 555-0100")];
    [("Number", JsString "+1 555-0100")];
    [("Number", JsString EmptyString)] ].

(** ** Promises on a millisecond time line

    A promise is described from the instant it is created: [Some (t, v)]
    settles [t] milliseconds later with [v], [None] never settles. *)

Definition Promise (A : Type) : Type := option (N * A).

(** [Promise.all] over promises that cannot reject: it resolves once the
    last of them has, with all the values in order. *)
Fixpoint promiseAll {A : Type} (ps : list (Promise A)) : Promise (list A) :=
  match ps with
  | [] => Some (0%N, [])
  | p :: rest =>
      match p, promiseAll rest with
      | Some (t, v), Some (ts, vs) => Some (N.max t ts, v :: vs)
      | _, _ => None
      end
  end.

(** [Promise.race([p, q])].  [firstWinsTie] decides the case where both
    settle within the same millisecond. *)
Definition promiseRace {A : Type} (firstWinsTie : bool) (p q : Promise A) : Promise A :=
  match p, q with
  | None, _ => q
  | _, None => p
  | Some (tp, _), Some (tq, _) =>
      if (tp <? tq)%N then p
      else if (tq <? tp)%N then q
      else if firstWinsTie then p else q
  end.

(** [sleep(ms)] seen as a promise, for a whole number of milliseconds. *)
Definition timerPromise {A : Type} (ms : N) (v : A) : Promise A := Some (ms, v).

(** ** The browser driver *)

(** What a [throw] carries: an [Error] instance (by name and message) or
    any other value (by its [String()]). *)
Inductive Thrown : Type :=
| ErrorObj (name message : string)
| ThrownValue (text : string).

Definition newError (message : string) : Thrown := ErrorObj "Error" message.

(** [String(err?.message || err)]; [Error.prototype.toString] of an error
    without message is its name. *)
Definition errorDetail (err : Thrown) : string :=
  match err with
  | ErrorObj name message =>
      if String.eqb message EmptyString then name else message
  | ThrownValue text => text
  end.

(** An element handle, named by the selector that resolved to it. *)
Inductive Handle : Type := ElementFor (selector : string).

(** [{ sel, handle }] *)
Record Found : Type := { sel : string; handle : Handle }.

(** The driver calls the script awaits directly. *)
Inductive Call : Type :=
| Launch (headless : bool)
| Goto (url : string)
| WaitForFunction (predicate : string)
| Focus (h : Handle)
| KeyboardType (line : string) (delay : Z)
| KeyDown (key : string)
| KeyPress (key : string)
| KeyUp (key : string)
| Click (h : Handle)
| UploadFile (h : Handle) (files : list string)
| Close.

(** The external collaborators.  [perform] runs a driver call and may
    throw; [visibleAfter w s] is the number of milliseconds after which the
    selector [s] is present on the page when one starts waiting in world
    [w] ([None]: never); [elapse] lets time pass; [timeoutError] is the
    error puppeteer rejects with when a selector wait times out; [random i]
    is the value of the [i]-th call of [Math.random()]; [allWinsTie] settles
    a race whose two sides settle within the same millisecond. *)
Record Driver : Type := {
  World : Type;
  perform : Call -> World -> option Thrown * World;
  visibleAfter : World -> string -> option N;
  elapse : Q -> World -> World;
  timeoutError : string -> N -> Thrown;
  random : nat -> Q;
  allWinsTie : bool
}.

(** Ghost record of what the run did, oldest first: the automation steps
    [main] invokes, the time every selector wait took, and every [sleep]. *)
Inductive Step : Type :=
| OpenChat (phone : string)
| AttachFiles (files : list string)
| TypeMultiline (text : string)
| ClickSend.

Inductive Event : Type :=
| Called (step : Step)
| Waited (ms : N)
| Slept (ms : Q).

Record FailureRecord : Type := { phone : string; error : string }.

(** [results = { sent, failed, errors }] *)
Record Ledger : Type := { sent : nat; failed : nat; errors : list FailureRecord }.

Inductive Outcome (A : Type) : Type :=
| Returned (a : A)
| Threw (err : Thrown)
| Pending.
Arguments Returned {A} a.
Arguments Threw {A} err.
Arguments Pending {A}.

(** [encodeURIComponent] on a UTF-8 string: the unreserved characters stay,
    every other byte becomes [%XX]. *)
Definition isUnreserved (c : ascii) : bool :=
  let n := nat_of_ascii c in
  ((65 <=? n) && (n <=? 90) || (97 <=? n) && (n <=? 122) || (48 <=? n) && (n <=? 57))%nat
  || existsChar (Ascii.eqb c) "-_.!~*'()".

Definition hexDigit (n : nat) : ascii :=
  match String.get n "0123456789ABCDEF" with
  | Some c => c
  | None => "0"%char
  end.

Fixpoint encodeURIComponent (s : string) : string :=
  match s with
  | EmptyString => EmptyString
  | String c rest =>
      if isUnreserved c then String c (encodeURIComponent rest)
      else
        let n := nat_of_ascii c in
        String "%"%char (String (hexDigit (n / 16)) (String (hexDigit (n mod 16))
          (encodeURIComponent rest)))
  end.

(** [Math.round] and [Math.floor] on exact rationals. *)
Definition mathRound (x : Q) : Z := Qfloor (x + (1 # 2)).
Definition mathFloor (x : Q) : Z := Qfloor x.

(** [randomBetween(min, max)] for the value [r] that [Math.random()]
    returned; the sum and the product are taken exactly. *)
Definition randomBetween (min max : Q) (r : Q) : Q := min + r * (max - min).

(** A numeric option as the parser hands it over: not a number, for a
    text that is no numeral, or the double nearest to the value written.
    Doubles have no largest value here: an option or a product that
    overflows to an infinity is left out. *)
Inductive CliNumber : Type :=
| NotANumber
| Finite (written : Q).

(** [x || fallback] on numbers: zero and [NaN] are falsy. *)
Definition orNumber (x : CliNumber) (fallback : Q) : Q :=
  match x with
  | NotANumber => fallback
  | Finite written =>
      if Qeq_bool (toDouble written) 0 then fallback else toDouble written
  end.

(** [x > y] on numbers: false when either is [NaN]. *)
Definition greater (x y : CliNumber) : bool :=
  match x, y with
  | Finite a, Finite b =>
      match (toDouble a ?= toDouble b)%Q with
      | Gt => true
      | _ => false
      end
  | _, _ => false
  end.

(** The selectors quote their attribute values with a double quote. *)
Definition quoted (s : string) : string :=
  String (ascii_of_nat 34) (s ++ String (ascii_of_nat 34) EmptyString).

Definition attr (name value : string) : string := "[" ++ name ++ "=" ++ quoted value ++ "]".

Definition composerSelectors : list string :=
  [ "div" ++ attr "contenteditable" "true" ++ attr "data-tab" "10";
    "div" ++ attr "contenteditable" "true" ++ attr "data-tab" "6";
    "div" ++ attr "aria-placeholder" "Type a message";
    "div" ++ attr "role" "textbox" ++ attr "contenteditable" "true" ].

Definition sendSelectors : list string :=
  [ "button" ++ attr "data-testid" "compose-btn-send";
    "span" ++ attr "data-icon" "send";
    "div" ++ attr "aria-label" "Send" ++ " button" ].

Definition clipSelectors : list string :=
  [ "button" ++ attr "data-testid" "attach-button";
    "span" ++ attr "data-icon" "clip";
    "div" ++ attr "title" "Attach" ].

Definition fileInputSelector : string :=
  "input" ++ attr "type" "file" ++ attr "accept" "image/*,video/mp4,video/3gpp,video/quicktime".

Definition previewSelectors : list string :=
  [ "div" ++ attr "aria-label" "Add a caption";
    "div" ++ attr "aria-label" "Send";
    "div[data-animate-media-preview]" ].

Definition readySelectors : list string :=
  [ "div" ++ attr "data-testid" "chatlist";
    "div" ++ attr "title" "Search input textbox";
    "div" ++ attr "aria-label" "Search or start new chat" ].

(** puppeteer's default timeout, used by [page.waitForSelector('body')]. *)
Definition defaultTimeout : N := 30000.

(** ** The script, as a state-and-exception computation *)

Section Script.

Context (D : Driver).

(** What the run threads along: the outside world, how many random
    numbers were drawn, the ghost log, and the [results] object of
    [main], which the loop body mutates in place. *)
Record State : Type := {
  world : World D;
  draws : nat;
  log : list Event;
  results : Ledger
}.

Definition M (A : Type) : Type := State -> Outcome A * State.

Definition ret {A : Type} (a : A) : M A := fun st => (Returned a, st).

Definition bind {A B : Type} (c : M A) (k : A -> M B) : M B :=
  fun st =>
    match c st with
    | (Returned a, st') => k a st'
    | (Threw err, st') => (Threw err, st')
    | (Pending, st') => (Pending, st')
    end.

Definition throw {A : Type} (err : Thrown) : M A := fun st => (Threw err, st).

(** [try { body } catch (err) { handler }] *)
Definition tryCatch {A : Type} (body : M A) (handler : Thrown -> M A) : M A :=
  fun st =>
    match body st with
    | (Threw err, st') => handler err st'
    | other => other
    end.

Notation "x <- c ;; k" := (bind c (fun x => k))
  (at level 61, c at next level, right associativity).
Notation "c ;; k" := (bind c (fun _ => k))
  (at level 61, right associativity).

Definition setWorld (w : World D) (st : State) : State :=
  {| world := w; draws := draws st; log := log st; results := results st |}.

Definition record (e : Event) : M unit :=
  fun st => (Returned tt,
             {| world := world st; draws := draws st;
                log := log st ++ [e]; results := results st |}).

(** [await sleep(ms)] *)
Definition sleep (ms : Q) : M unit :=
  fun st => (Returned tt,
             {| world := elapse D ms (world st); draws := draws st;
                log := log st ++ [Slept ms]; results := results st |}).

(** [Math.random()] *)
Definition mathRandom : M Q :=
  fun st => (Returned (random D (draws st)),
             {| world := world st; draws := S (draws st);
                log := log st; results := results st |}).

(** An awaited driver call. *)
Definition call (c : Call) : M unit :=
  fun st =>
    match perform D c (world st) with
    | (Some err, w) => (Threw err, setWorld w st)
    | (None, w) => (Returned tt, setWorld w st)
    end.

(** [page.waitForSelector(sel, { timeout })] as a promise: it resolves
    when the element shows up, rejects at the timeout if it has not by
    then, and with [timeout = 0] never rejects. *)
Definition waitForSelector (w : World D) (selector : string) (timeout : N)
  : Promise (Thrown + Handle) :=
  match visibleAfter D w selector with
  | Some t =>
      if (timeout =? 0)%N || (t <? timeout)%N then Some (t, inr (ElementFor selector))
      else Some (timeout, inl (timeoutError D selector timeout))
  | None =>
      if (timeout =? 0)%N then None
      else Some (timeout, inl (timeoutError D selector timeout))
  end.

Definition msQ (t : N) : Q := inject_Z (Z.of_N t).

(** [await p]: time passes until [p] settles. *)
Definition await {A : Type} (p : Promise (Thrown + A)) : M A :=
  fun st =>
    match p with
    | None => (Pending, st)
    | Some (t, r) =>
        let st' := {| world := elapse D (msQ t) (world st); draws := draws st;
                      log := log st ++ [Waited t]; results := results st |} in
        match r with
        | inl err => (Threw err, st')
        | inr a => (Returned a, st')
        end
    end.

(** [.then(h => ({ sel, handle: h })).catch(() => null)] *)
Definition orNull (selector : string) (p : Promise (Thrown + Handle))
  : Promise (option Found) :=
  match p with
  | None => None
  | Some (t, inr h) => Some (t, Some {| sel := selector; handle := h |})
  | Some (t, inl _) => Some (t, None)
  end.

(** [result.find(Boolean)] *)
Fixpoint findTruthy (result : list (option Found)) : option Found :=
  match result with
  | [] => None
  | Some f :: _ => Some f
  | None :: rest => findTruthy rest
  end.

(** [waitForAny(page, selectors, { timeout })].  The array of all results
    is raced against [sleep(timeout || 0)], which resolves with
    [undefined]; [|| []] turns that into the empty array. *)
Definition waitForAny (selectors : list string) (timeout : N) : M (option Found) :=
  fun st =>
    let promises :=
      map (fun s => orNull s (waitForSelector (world st) s timeout)) selectors in
    let all : Promise (option (list (option Found))) :=
      match promiseAll promises with
      | Some (t, values) => Some (t, Some values)
      | None => None
      end in
    let raced := promiseRace (allWinsTie D) all (timerPromise timeout None) in
    await (match raced with
           | Some (t, Some values) => Some (t, inr (findTruthy values))
           | Some (t, None) => Some (t, inr (findTruthy []))
           | None => None
           end) st.

(** [await page.waitForSelector(sel, { timeout })] *)
Definition awaitSelector (selector : string) (timeout : N) : M Handle :=
  fun st => await (waitForSelector (world st) selector timeout) st.

Definition openChat (phone : string) : M unit :=
  let url := "https://web.whatsapp.com/send?phone=" ++ encodeURIComponent phone in
  call (Goto url) ;;
  awaitSelector "body" defaultTimeout ;;
  call (WaitForFunction "document.readyState === 'complete'") ;;
  waitForAny composerSelectors 30000 ;;
  ret tt.

(** The body of the [for] loop of [typeMultiline]; the test
    [i < lines.length - 1] holds exactly when lines remain. *)
Fixpoint typeLines (lines : list string) : M unit :=
  match lines with
  | [] => ret tt
  | line :: rest =>
      (if String.eqb line EmptyString then ret tt
       else r <- mathRandom ;;
            call (KeyboardType line (10 + mathFloor (r * 80)))) ;;
      (match rest with
       | [] => ret tt
       | _ :: _ =>
           call (KeyDown "Shift") ;;
           call (KeyPress "Enter") ;;
           call (KeyUp "Shift") ;;
           r <- mathRandom ;;
           sleep (50 + r * 150)
       end) ;;
      typeLines rest
  end.

Definition typeMultiline (text : string) : M unit :=
  target <- waitForAny composerSelectors 15000 ;;
  match target with
  | None => throw (newError "Composer not found")
  | Some found =>
      call (Focus (handle found)) ;;
      typeLines (splitLines text)
  end.

Definition clickSend : M unit :=
  sendBtn <- waitForAny sendSelectors 10000 ;;
  match sendBtn with
  | None => throw (newError "Send button not found")
  | Some found => call (Click (handle found))
  end.

Definition attachFiles (files : list string) : M unit :=
  match files with
  | [] => ret tt
  | _ :: _ =>
      clip <- waitForAny clipSelectors 10000 ;;
      match clip with
      | None => throw (newError "Attach button not found")
      | Some found =>
          call (Click (handle found)) ;;
          (* the wait resolves to a handle or rejects, so the guard
             [if (!fileInput)] that follows it in the source never fires *)
          fileInput <- awaitSelector fileInputSelector 10000 ;;
          call (UploadFile fileInput files) ;;
          waitForAny previewSelectors 30000 ;;
          ret tt
      end
  end.

Definition ensureLoggedIn : M unit :=
  call (Goto "https://web.whatsapp.com") ;;
  waitForAny readySelectors 0 ;;
  ret tt.

(** [results.sent++] *)
Definition countSent : M unit :=
  fun st =>
    (Returned tt,
     {| world := world st; draws := draws st; log := log st;
        results := {| sent := S (sent (results st));
                      failed := failed (results st);
                      errors := errors (results st) |} |}).

(** [results.failed++; results.errors.push({ phone, error })] *)
Definition countFailed (phone error : string) : M unit :=
  fun st =>
    (Returned tt,
     {| world := world st; draws := draws st; log := log st;
        results := {| sent := sent (results st);
                      failed := S (failed (results st));
                      errors := errors (results st)
                                ++ [{| phone := phone; error := error |}] |} |}).

(** An automation step invoked from [main], noted in the ghost log. *)
Definition step {A : Type} (s : Step) (c : M A) : M A := record (Called s) ;; c.

Section Batch.

Variables (msgText : string) (attachments : list string) (minMs maxMs : Z).

(** The [try] block of the loop body, up to the last automation step. *)
Definition sendSteps (phone : string) : M unit :=
  step (OpenChat phone) (openChat phone) ;;
  match attachments with
  | _ :: _ =>
      step (AttachFiles attachments) (attachFiles attachments) ;;
      (if String.eqb msgText EmptyString then ret tt
       else step (TypeMultiline msgText) (typeMultiline msgText)) ;;
      step ClickSend clickSend
  | [] =>
      if String.eqb msgText EmptyString then ret tt
      else step (TypeMultiline msgText) (typeMultiline msgText) ;;
           step ClickSend clickSend
  end.

(** One iteration of the [for] loop of [main]. *)
Definition iteration (phone : string) : M unit :=
  tryCatch
    (sendSteps phone ;;
     countSent ;;
     r <- mathRandom ;;
     let delay := mathRound (randomBetween (inject_Z minMs) (inject_Z maxMs) r) in
     sleep (inject_Z delay))
    (fun err =>
       countFailed phone (errorDetail err) ;;
       r <- mathRandom ;;
       sleep (1500 + r * 2000)).

(** [for (let i = 0; i < numbers.length; i++)] *)
Fixpoint sendAll (numbers : list string) : M unit :=
  match numbers with
  | [] => ret tt
  | phone :: rest => iteration phone ;; sendAll rest
  end.

End Batch.

(** The command line options [main] reads after validation. *)
Record Argv : Type := {
  delayMin : CliNumber;
  delayMax : CliNumber;
  countryCode : string;
  headless : bool
}.

(** [Math.round((argv.delayMin || 2) * 1000)]: the product is a double. *)
Definition minMsOf (argv : Argv) : Z :=
  mathRound (toDouble (orNumber (delayMin argv) 2 * 1000)).
Definition maxMsOf (argv : Argv) : Z :=
  mathRound (toDouble (orNumber (delayMax argv) 5 * 1000)).

(** [const results = { sent: 0, failed: 0, errors: [] }] *)
Definition initResults : M unit :=
  fun st => (Returned tt,
             {| world := world st; draws := draws st; log := log st;
                results := {| sent := 0; failed := 0; errors := [] |} |}).

Definition getResults : M Ledger := fun st => (Returned (results st), st).

(** The batch itself: lines 243 to 278 of [main]. *)
Definition runBatch (argv : Argv) (numbers : list string) (msgText : string)
    (attachments : list string) : M Ledger :=
  initResults ;;
  sendAll msgText attachments (minMsOf argv) (maxMsOf argv) numbers ;;
  getResults.

(** [main] from the point where the message and the attachments are
    resolved and the workbook parsed.  [None] is [process.exit(1)] for an
    empty contact list; otherwise the final [results]. *)
Definition main (argv : Argv) (rows : list Row) (msgText : string)
    (attachments : list string) : M (option Ledger) :=
  let numbers := readExcelPhones rows (countryCode argv) in
  match numbers with
  | [] => ret None
  | _ :: _ =>
      call (Launch (headless argv)) ;;
      ensureLoggedIn ;;
      final <- runBatch argv numbers msgText attachments ;;
      call Close ;;
      ret (Some final)
  end.

End Script.

Arguments world {D} s.
Arguments draws {D} s.
Arguments log {D} s.
Arguments results {D} s.

(** ** Reading the ghost log *)

Fixpoint collect {X : Type} (g : Event -> option X) (l : list Event) : list X :=
  match l with
  | [] => []
  | e :: rest =>
      match g e with
      | Some x => x :: collect g rest
      | None => collect g rest
      end
  end.

Definition asStep (e : Event) : option Step :=
  match e with
  | Called s => Some s
  | _ => None
  end.

Definition asOpened (e : Event) : option string :=
  match e with
  | Called (OpenChat p) => Some p
  | _ => None
  end.

Definition asSleep (e : Event) : option Q :=
  match e with
  | Slept ms => Some ms
  | _ => None
  end.

(** The automation steps [main] invoked, the contacts whose conversation
    was opened, and the sleeps, each in order. *)
Definition stepsOf (l : list Event) : list Step := collect asStep l.
Definition opened (l : list Event) : list string := collect asOpened l.
Definition sleepsOf (l : list Event) : list Q := collect asSleep l.

(** ** Concrete drivers *)

Definition landingUrl : string := "https://web.whatsapp.com".
Definition chatUrl (phone : string) : string :=
  "https://web.whatsapp.com/send?phone=" ++ encodeURIComponent phone.

(** A scripted client whose world is the address the page is on.  The
    login indicators show up [loginDelay] ms after the landing page is
    requested; the conversation of a number in [unreachable] never shows a
    composer; everything else is there at once and no driver call throws. *)
Definition scripted (unreachable : list string) (loginDelay : N) (rnd : nat -> Q) : Driver :=
  {| World := string;
     perform := fun c w =>
       match c with
       | Goto url => (None, url)
       | _ => (None, w)
       end;
     visibleAfter := fun w selector =>
       if String.eqb selector "body" then Some 0%N
       else if String.eqb w landingUrl then Some loginDelay
       else if existsb (fun p => String.eqb w (chatUrl p)) unreachable then None
       else Some 0%N;
     elapse := fun _ w => w;
     timeoutError := fun selector _ =>
       ErrorObj "TimeoutError" ("Waiting for selector failed: " ++ selector);
     random := rnd;
     allWinsTie := true |}.

Definition startState (D : Driver) (w : World D) : State D :=
  {| world := w; draws := 0; log := [];
     results := {| sent := 0; failed := 0; errors := [] |} |}.

Definition zeroDelays : Argv :=
  {| delayMin := Finite 0; delayMax := Finite 0;
     countryCode := EmptyString; headless := false |}.

(** ** Predicates on computations *)

(** [c] always settles, leaves [results] alone, and adds nothing to the log
    that [g] selects. *)
Definition respects {D : Driver} {X A : Type} (g : Event -> option X) (c : M D A) : Prop :=
  forall st,
    fst (c st) <> Pending
    /\ results (snd (c st)) = results st
    /\ collect g (log (snd (c st))) = collect g (log st).

(** [c] does the same, except that the log gains exactly one entry that
    [g] selects, [x]. *)
Definition adds {D : Driver} {X A : Type} (g : Event -> option X) (x : X) (c : M D A) : Prop :=
  forall st,
    fst (c st) <> Pending
    /\ results (snd (c st)) = results st
    /\ collect g (log (snd (c st))) = (collect g (log st) ++ [x])%list.

(** The ledger after one more success, and after one more failure. *)
Definition oneMoreSent (l : Ledger) : Ledger :=
  {| sent := S (sent l); failed := failed l; errors := errors l |}.

Definition oneMoreFailed (l : Ledger) (p detail : string) : Ledger :=
  {| sent := sent l; failed := S (failed l);
     errors := errors l ++ [{| phone := p; error := detail |}] |}.

(** The pacing delay and the backoff that an iteration draws when its
    automation steps end in state [st]. *)
Definition pacingDelay (D : Driver) (minMs maxMs : Z) (st : State D) : Z :=
  mathRound (randomBetween (inject_Z minMs) (inject_Z maxMs) (random D (draws st))).

Definition backoff (D : Driver) (st : State D) : Q := 1500 + random D (draws st) * 2000.


(** The client of the examples: the conversation of ["222"] never shows
    a composer, login takes five seconds, and [Math.random()] always
    returns one half. *)
Definition demoClient : Driver := scripted ["222"] 5000 (fun _ => (1 # 2)%Q).

Definition demoStart : State demoClient := startState demoClient "about:blank".

(** ** Pre-flight: options, message and attachments *)

(** The file system as the script uses it: [path.resolve(process.cwd(), p)],
    [fs.existsSync(p)] and [fs.readFileSync(p, 'utf8')], which returns the
    text or throws (a directory, a file that cannot be read). *)
Record FileSystem : Type := {
  resolve : string -> string;
  existsSync : string -> bool;
  readFileSync : string -> Thrown + string
}.

(** [!!s] for an option that is a string or [undefined]. *)
Definition given (s : option string) : bool :=
  match s with
  | Some text => negb (String.eqb text EmptyString)
  | None => false
  end.

(** The options the [.check] callback of the parser looks at, beside the
    ones [main] reads later. *)
Record CliArgs : Type := {
  message : option string;
  messageFile : option string;
  image : option string;
  video : option string;
  options : Argv
}.

(** The [.check] callback: [Some] is the message of the error it throws,
    [None] is [return true]. *)
Definition check (args : CliArgs) : option string :=
  if negb (given (message args)) && negb (given (messageFile args))
     && negb (given (image args)) && negb (given (video args))
  then Some "Provide at least one of: --message, --messageFile, --image, --video"
  else if given (message args) && given (messageFile args)
  then Some "Use either --message or --messageFile, not both"
  else if greater (delayMin (options args)) (delayMax (options args))
  then Some "--delayMin cannot be greater than --delayMax"
  else None.

(** [ensureAbs(p)] *)
Definition ensureAbs (fs : FileSystem) (p : option string) : option string :=
  if given p then
    match p with
    | Some text => Some (resolve fs text)
    | None => None
    end
  else None.

(** [fileExists(p)]; [existsSync] does not throw, so the [catch] is idle. *)
Definition fileExists (fs : FileSystem) (p : option string) : bool :=
  given p &&
  match p with
  | Some text => existsSync fs text
  | None => false
  end.

(** The text a template literal gives for a path or [undefined]. *)
Definition pathText (p : option string) : string :=
  match p with
  | Some text => text
  | None => "undefined"
  end.

(** [readMessage({ message, messageFile })]: the text, or the error thrown. *)
Definition readMessage (fs : FileSystem) (message messageFile : option string)
  : Thrown + string :=
  if given message then inr (pathText message)
  else if given messageFile then
    let p := ensureAbs fs messageFile in
    if negb (fileExists fs p) then inl (newError ("Message file not found: " ++ pathText p))
    else readFileSync fs (pathText p)
  else inr EmptyString.

(** Lines 214 to 225 of [main]: the attachment list, or the line printed
    before [process.exit(1)]. *)
Definition collectAttachments (fs : FileSystem) (image video : option string)
  : string + list string :=
  let imagePath := ensureAbs fs image in
  let videoPath := ensureAbs fs video in
  let withImage : string + list string :=
    if given imagePath then
      if negb (fileExists fs imagePath) then inl ("Image not found: " ++ pathText imagePath)
      else inr [pathText imagePath]
    else inr [] in
  match withImage with
  | inl line => inl line
  | inr attachments =>
      if given videoPath then
        if negb (fileExists fs videoPath) then inl ("Video not found: " ++ pathText videoPath)
        else inr (attachments ++ [pathText videoPath])%list
      else inr attachments
  end.

(** The value of a hexadecimal digit, and the inverse of
    [encodeURIComponent] on what it produces. *)
Definition hexValue (c : ascii) : nat :=
  match String.index 0 (String c EmptyString) "0123456789ABCDEF" with
  | Some n => n
  | None => 0
  end.

Fixpoint percentDecode (s : string) : string :=
  match s with
  | EmptyString => EmptyString
  | String c rest =>
      if Ascii.eqb c "%"%char then
        match rest with
        | String hi (String lo rest') =>
            String (ascii_of_nat (hexValue hi * 16 + hexValue lo)) (percentDecode rest')
        | _ => EmptyString
        end
      else String c (percentDecode rest)
  end.

(** ** Reading the loop body *)

(** The automation steps the [try] block goes through when none throws. *)
Definition plannedSteps (msgText : string) (attachments : list string) (p : string)
  : list Step :=
  OpenChat p ::
  match attachments with
  | _ :: _ =>
      AttachFiles attachments ::
      ((if String.eqb msgText EmptyString then [] else [TypeMultiline msgText])
       ++ [ClickSend])%list
  | [] =>
      if String.eqb msgText EmptyString then []
      else [TypeMultiline msgText; ClickSend]
  end.

(** How many line breaks a text holds. *)
Fixpoint lineBreaks (s : string) : nat :=
  match s with
  | EmptyString => 0
  | String c rest =>
      if Ascii.eqb c "010"%char then S (lineBreaks rest) else lineBreaks rest
  end.

(** The first selector of the list that is on the page before the timeout. *)
Fixpoint firstVisible (D : Driver) (w : World D) (timeout : N) (selectors : list string)
  : option Found :=
  match selectors with
  | [] => None
  | s :: rest =>
      match visibleAfter D w s with
      | Some t =>
          if (t <? timeout)%N then Some {| sel := s; handle := ElementFor s |}
          else firstVisible D w timeout rest
      | None => firstVisible D w timeout rest
      end
  end.

(** The state once a selector wait that took [t] ms is over. *)
Definition afterWait {D : Driver} (st : State D) (t : N) : State D :=
  {| world := elapse D (msQ t) (world st); draws := draws st;
     log := log st ++ [Waited t]; results := results st |}.

(** [c] goes through the steps of [plan] in order and stops at the first
    one that throws: the steps it adds to the log are an initial part of
    [plan], and all of it when [c] returns. *)
Definition follows {D : Driver} (c : M D unit) (plan : list Step) : Prop :=
  forall st,
    exists k,
      stepsOf (log (snd (c st))) = (stepsOf (log st) ++ firstn k plan)%list
      /\ (fst (c st) = Returned tt -> k = length plan)
      /\ (plan <> [] -> 1 <= k).

(** [c] returns normally from every state. *)
Definition returns {D : Driver} {A : Type} (c : M D A) : Prop :=
  forall st, exists a st', c st = (Returned a, st').

(** A client on which nothing throws and every element is there within
    ten seconds, the shortest timeout of the script. *)
Definition responsive (D : Driver) : Prop :=
  (forall c w, fst (perform D c w) = None)
  /\ (forall w s, exists t, visibleAfter D w s = Some t /\ (t < 10000)%N).

(** A client where everything is there at once, and its start state. *)
Definition promptClient : Driver := scripted [] 0 (fun _ => (1 # 2)%Q).

Definition promptStart : State promptClient := startState promptClient "about:blank".

(** The page of the contact ["222"], whose controls never show up. *)
Definition unreachableStart : State demoClient := startState demoClient (chatUrl "222").

(** A file system of the examples: every path is kept as it is; only
    ["/msg.txt"], ["/a.png"] and the directory ["/dir"] exist; the files
    hold the text ["Hi"] and reading the directory throws. *)
Definition demoFiles : FileSystem :=
  {| resolve := fun p => p;
     existsSync := fun p =>
       String.eqb p "/msg.txt" || String.eqb p "/a.png" || String.eqb p "/dir";
     readFileSync := fun p =>
       if String.eqb p "/dir"
       then inl (newError "EISDIR: illegal operation on a directory, read")
       else inr "Hi" |}.

(** * Properties *)

(** ** Normaliser *)

Lemma removeAll_all (drop : ascii -> bool) (s : string) :
  forallChar drop s = true -> removeAll drop s = EmptyString.
Proof.
  induction s as [|c rest IH]; simpl; [reflexivity|].
  intros H. apply andb_true_iff in H as [Hc Hrest].
  rewrite Hc. now apply IH.
Qed.

Lemma removeAll_none (drop : ascii -> bool) (s : string) :
  existsChar drop s = false -> removeAll drop s = s.
Proof.
  induction s as [|c rest IH]; simpl; [reflexivity|].
  intros H. apply orb_false_iff in H as [Hc Hrest].
  rewrite Hc. f_equal. now apply IH.
Qed.

Lemma forallChar_impl (p q : ascii -> bool) (s : string) :
  (forall c, p c = true -> q c = true) ->
  forallChar p s = true -> forallChar q s = true.
Proof.
  intros Hpq. induction s as [|c rest IH]; simpl; [reflexivity|].
  intros H. apply andb_true_iff in H as [Hc Hrest].
  rewrite (Hpq _ Hc). now apply IH.
Qed.

(** The character class of the source matches every digit, so every digit
    is removed. *)
Lemma digit_is_stripped (c : ascii) :
  Spec.isDigit c = true -> matches_stripClass c = true.
Proof.
  destruct c as [[|] [|] [|] [|] [|] [|] [|] [|]]; vm_compute; congruence.
Qed.

(** Whatever survives the stripping is a backslash, a [d] or a [+]. *)
Lemma stripped_alphabet (s : string) :
  forallChar (fun c => negb (matches_stripClass c)) (removeAll matches_stripClass s) = true.
Proof.
  induction s as [|c rest IH]; simpl; [reflexivity|].
  destruct (matches_stripClass c) eqn:E; simpl; [exact IH|].
  now rewrite E, IH.
Qed.

(** A raw value made of digits only is normalised to [null], with or
    without a country code. *)
Lemma normalizePhone_digits_null (digits cc : string) :
  forallChar Spec.isDigit digits = true ->
  normalizePhone (JsString digits) cc = None.
Proof.
  intros H. unfold normalizePhone. simpl.
  destruct (String.eqb digits EmptyString); simpl; [reflexivity|].
  rewrite removeAll_all; [reflexivity|].
  revert H. apply forallChar_impl. exact digit_is_stripped.
Qed.

(** With a leading [+] the country code plays no role. *)
Lemma normalizePhone_plus_ignores_code (raw : JsValue) (cc1 cc2 : string) :
  startsWith (removeAll matches_stripClass (toString raw)) "+" = true ->
  normalizePhone raw cc1 = normalizePhone raw cc2.
Proof.
  intros H. unfold normalizePhone.
  destruct (negb (truthy raw)); [reflexivity|].
  destruct (String.eqb _ EmptyString); [reflexivity|].
  now rewrite H.
Qed.

(** The normaliser never yields the empty string. *)
Lemma normalizePhone_nonempty (raw : JsValue) (cc n : string) :
  normalizePhone raw cc = Some n -> n <> EmptyString.
Proof.
  unfold normalizePhone.
  destruct (negb (truthy raw)); [discriminate|].
  set (digits := removeAll matches_stripClass (toString raw)).
  destruct (String.eqb digits EmptyString) eqn:Hne; [discriminate|].
  apply String.eqb_neq in Hne.
  destruct (startsWith digits "+") eqn:Hplus.
  - intros [= <-]. destruct digits as [|c rest]; [congruence|].
    unfold startsWith in Hplus. cbn [String.prefix] in Hplus.
    destruct (ascii_dec "+" c) as [<-|]; [|discriminate].
    change (String "+" (removeAll matches_backslash rest) <> EmptyString).
    discriminate.
  - destruct (_ && _).
    + intros [= <-]. destruct cc; simpl; [assumption|discriminate].
    + now intros [= <-].
Qed.

(** C2. On the raw value ["+1 555-0100"] the source returns ["+"]: the
    character class [[^\\d+]] removes the digits and keeps the plus sign,
    and [/\\+/g] removes backslashes, not the plus.  The normaliser the
    specification describes returns the digits ["15550100"].  A cell without
    any digit, such as ["david"], is not rejected either: it becomes the
    identifier ["dd"]. *)
Theorem normalizePhone_plus_example :
  normalizePhone (JsString "+1 555-0100") "91" = Some "+"
  /\ Spec.normalize "+1 555-0100" "91" = Some "15550100"
  /\ normalizePhone (JsString "david") EmptyString = Some "dd"
  /\ Spec.normalize "david" EmptyString = None.
Proof. repeat split; reflexivity. Qed.

(** C3. An 8-digit local number with country code ["91"] and a 13-digit
    number that already carries it are both normalised to [null] by the
    source, because every digit is stripped; the specification's normaliser
    returns ["91"] followed by the 8 digits, and the 13 digits unchanged. *)
Theorem normalizePhone_local_example :
  normalizePhone (JsString "98765432") "91" = None
  /\ Spec.normalize "98765432" "91" = Some "9198765432"
  /\ normalizePhone (JsString "9198765432101") "91" = None
  /\ Spec.normalize "9198765432101" "91" = Some "9198765432101"
  /\ normalizePhone (JsNumber 98765432) "91" = None.
Proof. repeat split; reflexivity. Qed.

(** ** Loader *)

Lemma readExcelPhones_fold (rows : list Row) (cc : string) (acc : list string) :
  fold_left
    (fun numbers row =>
       match normalizePhone (phoneCell row) cc with
       | Some n => if String.eqb n EmptyString then numbers else setAdd n numbers
       | None => numbers
       end)
    rows acc
  = (acc ++ Spec.distinctInOrder acc (identifiers rows cc))%list.
Proof.
  revert acc. induction rows as [|row rest IH]; intros acc; simpl.
  - now rewrite app_nil_r.
  - destruct (normalizePhone (phoneCell row) cc) as [n|]; [|apply IH].
    destruct (String.eqb n EmptyString); [apply IH|].
    rewrite IH. simpl. unfold setAdd.
    destruct (existsb (String.eqb n) acc); [reflexivity|].
    now rewrite <- app_assoc.
Qed.

(** The loader keeps each identifier at its first occurrence, in source
    order. *)
Lemma readExcelPhones_first_occurrences (rows : list Row) (cc : string) :
  readExcelPhones rows cc = Spec.distinctInOrder [] (identifiers rows cc).
Proof. unfold readExcelPhones. now rewrite readExcelPhones_fold. Qed.

Lemma distinctInOrder_fresh (seen l : list string) (x : string) :
  In x (Spec.distinctInOrder seen l) -> In x l /\ ~ In x seen.
Proof.
  revert seen. induction l as [|y rest IH]; intros seen; simpl; [tauto|].
  destruct (existsb (String.eqb y) seen) eqn:E.
  - intros H. apply IH in H. tauto.
  - intros [<-|H].
    + split; [now left|]. intros Hin.
      assert (existsb (String.eqb y) seen = true); [|congruence].
      apply existsb_exists. exists y. split; [assumption|apply String.eqb_refl].
    + apply IH in H as [H1 H2]. split; [now right|].
      intros Hin. apply H2, in_or_app. now left.
Qed.

Lemma distinctInOrder_NoDup (seen l : list string) :
  NoDup (Spec.distinctInOrder seen l).
Proof.
  revert seen. induction l as [|y rest IH]; intros seen; simpl; [constructor|].
  destruct (existsb (String.eqb y) seen); [apply IH|].
  constructor; [|apply IH].
  intros H. apply distinctInOrder_fresh in H as [_ H].
  apply H, in_or_app. right. now left.
Qed.

Lemma readExcelPhones_NoDup (rows : list Row) (cc : string) :
  NoDup (readExcelPhones rows cc).
Proof. rewrite readExcelPhones_first_occurrences. apply distinctInOrder_NoDup. Qed.

(** C4. On the sheet whose [Number] column holds ["+1 555-0100"] twice and
    a blank cell, the source returns the single identifier ["+"], where the
    specification's loader returns ["15550100"]: deduplication and
    blank-skipping work, the normalised value is wrong. *)
Theorem readExcelPhones_example :
  readExcelPhones exampleSheet EmptyString = ["+"]
  /\ map phoneCell exampleSheet
     = [JsString "+1 555-0100"; JsString "+1 555-0100"; JsString EmptyString]
  /\ Spec.distinctInOrder []
       (flat_map (fun raw => match Spec.normalize raw EmptyString with
                             | Some n => [n]
                             | None => []
                             end)
                 ["+1 555-0100"; "+1 555-0100"; EmptyString])
     = ["15550100"].
Proof. repeat split; reflexivity. Qed.

(** ** Frame rules for the script's computations *)

Create HintDb frames.

Lemma collect_app {X : Type} (g : Event -> option X) (l1 l2 : list Event) :
  collect g (l1 ++ l2) = (collect g l1 ++ collect g l2)%list.
Proof.
  induction l1 as [|e rest IH]; simpl; [reflexivity|].
  destruct (g e); simpl; now rewrite IH.
Qed.

Section Frames.

Context {D : Driver} {X : Type} (g : Event -> option X).
Hypothesis waits_unselected : forall t, g (Waited t) = None.
Hypothesis sleeps_unselected : forall ms, g (Slept ms) = None.

Lemma respects_ret {A : Type} (a : A) : respects g (ret D a).
Proof. intros st. simpl. repeat split. discriminate. Qed.

Lemma respects_throw {A : Type} (err : Thrown) : respects g (@throw D A err).
Proof. intros st. simpl. repeat split. discriminate. Qed.

Lemma respects_bind {A B : Type} (c : M D A) (k : A -> M D B) :
  respects g c -> (forall a, respects g (k a)) -> respects g (bind D c k).
Proof.
  intros Hc Hk st. unfold bind.
  destruct (Hc st) as (Hp & Hr & Hl).
  destruct (c st) as [[a| |] st1]; simpl in *.
  - destruct (Hk a st1) as (Hp' & Hr' & Hl'). repeat split.
    + assumption.
    + congruence.
    + congruence.
  - repeat split; [discriminate|assumption|assumption].
  - congruence.
Qed.

Lemma respects_call (c : Call) : respects g (call D c).
Proof.
  intros st. unfold call. destruct (perform D c (world st)) as [[err|] w]; simpl;
    repeat split; discriminate.
Qed.

Lemma respects_mathRandom : respects g (mathRandom D).
Proof. intros st. simpl. repeat split. discriminate. Qed.

Lemma respects_sleep (ms : Q) : respects g (sleep D ms).
Proof.
  intros st. simpl. repeat split; [discriminate|].
  rewrite collect_app. simpl. rewrite sleeps_unselected. apply app_nil_r.
Qed.

Lemma respects_record (e : Event) : g e = None -> respects g (record D e).
Proof.
  intros He st. simpl. repeat split; [discriminate|].
  rewrite collect_app. simpl. rewrite He. apply app_nil_r.
Qed.

Lemma respects_await {A : Type} (t : N) (r : Thrown + A) :
  respects g (await D (Some (t, r))).
Proof.
  intros st. unfold await.
  destruct r; simpl; (repeat split; [discriminate|]);
    rewrite collect_app; simpl; rewrite waits_unselected; apply app_nil_r.
Qed.

(** The timer of [waitForAny] always settles, so the race does. *)
Lemma promiseRace_timer {A : Type} (tie : bool) (p : Promise A) (ms : N) (v : A) :
  exists t r, promiseRace tie p (timerPromise ms v) = Some (t, r) /\ (t <= ms)%N.
Proof.
  unfold promiseRace, timerPromise. destruct p as [[tp vp]|].
  - destruct (tp <? ms)%N eqn:E1.
    + exists tp, vp. split; [reflexivity|]. apply N.ltb_lt in E1. lia.
    + destruct (ms <? tp)%N eqn:E2.
      * exists ms, v. split; [reflexivity|]. lia.
      * apply N.ltb_ge in E1. apply N.ltb_ge in E2.
        destruct tie; [exists tp, vp|exists ms, v]; split; try reflexivity; lia.
  - exists ms, v. split; [reflexivity|]. lia.
Qed.

(** [waitForAny] returns after at most [timeout] ms, never throws, and
    logs the time it took. *)
Lemma waitForAny_returns (selectors : list string) (timeout : N) (st : State D) :
  exists t found,
    (t <= timeout)%N
    /\ waitForAny D selectors timeout st
       = (Returned found,
          {| world := elapse D (msQ t) (world st); draws := draws st;
             log := log st ++ [Waited t]; results := results st |}).
Proof.
  unfold waitForAny.
  match goal with
  | |- context [promiseRace ?tie ?p (timerPromise ?ms ?v)] =>
      destruct (promiseRace_timer tie p ms v) as (t & r & -> & Ht)
  end.
  exists t. destruct r as [values|]; eexists; (split; [exact Ht|reflexivity]).
Qed.

Lemma respects_waitForAny (selectors : list string) (timeout : N) :
  respects g (waitForAny D selectors timeout).
Proof.
  intros st. destruct (waitForAny_returns selectors timeout st) as (t & found & _ & ->).
  simpl. repeat split; [discriminate|].
  rewrite collect_app. simpl. rewrite waits_unselected. apply app_nil_r.
Qed.

Lemma respects_awaitSelector (selector : string) (timeout : N) :
  timeout <> 0%N -> respects g (awaitSelector D selector timeout).
Proof.
  intros Hpos st. unfold awaitSelector, waitForSelector.
  apply N.eqb_neq in Hpos. rewrite Hpos. simpl.
  destruct (visibleAfter D (world st) selector) as [t|];
    [destruct (t <? timeout)%N|]; apply respects_await.
Qed.

Hint Resolve respects_ret respects_throw respects_call respects_mathRandom
  respects_sleep respects_waitForAny : frames.

Ltac frames :=
  repeat (apply respects_bind; [|intros ?]); auto with frames.

Lemma respects_openChat (p : string) : respects g (openChat D p).
Proof.
  unfold openChat. frames. apply respects_awaitSelector. discriminate.
Qed.

Lemma respects_typeLines (lines : list string) : respects g (typeLines D lines).
Proof.
  induction lines as [|line rest IH]; simpl; [apply respects_ret|].
  frames.
  - destruct (String.eqb line EmptyString); frames.
  - destruct rest; frames.
Qed.

Lemma respects_typeMultiline (text : string) : respects g (typeMultiline D text).
Proof.
  unfold typeMultiline. frames.
  destruct a as [found|]; frames. apply respects_typeLines.
Qed.

Lemma respects_clickSend : respects g (clickSend D).
Proof. unfold clickSend. frames. destruct a; frames. Qed.

Lemma respects_attachFiles (files : list string) : respects g (attachFiles D files).
Proof.
  unfold attachFiles. destruct files as [|f files]; [apply respects_ret|].
  frames. destruct a as [found|]; frames.
  apply respects_awaitSelector. discriminate.
Qed.

Lemma respects_step {A : Type} (s : Step) (c : M D A) :
  g (Called s) = None -> respects g c -> respects g (step D s c).
Proof.
  intros Hs Hc. unfold step. apply respects_bind; [now apply respects_record|].
  intros _. exact Hc.
Qed.

Lemma adds_record (e : Event) (x : X) : g e = Some x -> adds g x (record D e).
Proof.
  intros He st. simpl. repeat split; [discriminate|].
  rewrite collect_app. simpl. now rewrite He.
Qed.

Lemma adds_bind {A B : Type} (x : X) (c : M D A) (k : A -> M D B) :
  adds g x c -> (forall a, respects g (k a)) -> adds g x (bind D c k).
Proof.
  intros Hc Hk st. unfold bind.
  destruct (Hc st) as (Hp & Hr & Hl).
  destruct (c st) as [[a| |] st1]; simpl in *.
  - destruct (Hk a st1) as (Hp' & Hr' & Hl'). repeat split.
    + assumption.
    + congruence.
    + congruence.
  - repeat split; [discriminate|assumption|assumption].
  - congruence.
Qed.

End Frames.

(** ** The loop body *)

Ltac frame_steps :=
  repeat first
    [ apply respects_ret
    | apply respects_record; reflexivity
    | apply respects_openChat
    | apply respects_attachFiles
    | apply respects_typeMultiline
    | apply respects_clickSend
    | apply respects_bind; [|intros ?]
    | intros; reflexivity ].

Section Loop.

Context (D : Driver) (msgText : string) (attachments : list string) (minMs maxMs : Z).

(** The [try] block opens the conversation of its contact and no other. *)
Lemma sendSteps_opens (p : string) :
  adds asOpened p (sendSteps D msgText attachments p).
Proof.
  unfold sendSteps, step.
  apply adds_bind.
  - apply adds_bind; [now apply adds_record|].
    intros _. frame_steps.
  - intros _.
    destruct attachments as [|f files]; destruct (String.eqb msgText EmptyString);
      frame_steps.
Qed.

(** One iteration, by the outcome of its automation steps. *)
Lemma iteration_cases (p : string) (st : State D) :
  match sendSteps D msgText attachments p st with
  | (Returned _, st1) =>
      iteration D msgText attachments minMs maxMs p st
      = (Returned tt,
         {| world := elapse D (inject_Z (pacingDelay D minMs maxMs st1)) (world st1);
            draws := S (draws st1);
            log := log st1 ++ [Slept (inject_Z (pacingDelay D minMs maxMs st1))];
            results := oneMoreSent (results st1) |})
  | (Threw err, st1) =>
      iteration D msgText attachments minMs maxMs p st
      = (Returned tt,
         {| world := elapse D (backoff D st1) (world st1);
            draws := S (draws st1);
            log := log st1 ++ [Slept (backoff D st1)];
            results := oneMoreFailed (results st1) p (errorDetail err) |})
  | (Pending, st1) => False
  end.
Proof.
  destruct (sendSteps_opens p st) as (Hp & _).
  unfold iteration, tryCatch, bind.
  destruct (sendSteps D msgText attachments p st) as [[[]|err|] st1]; simpl in *;
    [reflexivity|reflexivity|congruence].
Qed.

(** One iteration always completes; it counts the contact once, as sent
    or as failed, and opens that contact's conversation and no other. *)
Lemma iteration_returns (p : string) (st : State D) :
  exists st',
    iteration D msgText attachments minMs maxMs p st = (Returned tt, st')
    /\ opened (log st') = (opened (log st) ++ [p])%list
    /\ (results st' = oneMoreSent (results st)
        \/ exists detail, results st' = oneMoreFailed (results st) p detail).
Proof.
  pose proof (iteration_cases p st) as H.
  destruct (sendSteps_opens p st) as (_ & Hr & Hl).
  destruct (sendSteps D msgText attachments p st) as [[[]|err|] st1];
    simpl in *; [| |contradiction];
    eexists; (split; [exact H|]); simpl; split.
  - unfold opened. rewrite collect_app. simpl. rewrite app_nil_r. exact Hl.
  - left. now rewrite Hr.
  - unfold opened. rewrite collect_app. simpl. rewrite app_nil_r. exact Hl.
  - right. exists (errorDetail err). now rewrite Hr.
Qed.

Lemma sendAll_app (pre post : list string) (st st1 : State D) :
  sendAll D msgText attachments minMs maxMs pre st = (Returned tt, st1) ->
  sendAll D msgText attachments minMs maxMs (pre ++ post) st
  = sendAll D msgText attachments minMs maxMs post st1.
Proof.
  revert st. induction pre as [|p pre IH]; intros st; simpl.
  - unfold ret. now intros [= ->].
  - unfold bind.
    destruct (iteration_returns p st) as (st2 & -> & _).
    apply IH.
Qed.

(** The loop always runs to its end: every contact is attempted, in
    order, and counted once. *)
Lemma sendAll_returns (numbers : list string) (st : State D) :
  exists st',
    sendAll D msgText attachments minMs maxMs numbers st = (Returned tt, st')
    /\ opened (log st') = (opened (log st) ++ numbers)%list
    /\ sent (results st') + failed (results st')
       = sent (results st) + failed (results st) + length numbers
    /\ length (errors (results st')) + failed (results st)
       = length (errors (results st)) + failed (results st')
    /\ (forall r, In r (errors (results st)) -> In r (errors (results st'))).
Proof.
  revert st. induction numbers as [|p rest IH]; intros st; simpl.
  - exists st. unfold ret. repeat split; try lia.
    + now rewrite app_nil_r.
    + auto.
  - unfold bind.
    destruct (iteration_returns p st) as (st1 & -> & Ho & Hr).
    destruct (IH st1) as (st' & -> & Ho' & Hc & He & Hin).
    exists st'. split; [reflexivity|]. split.
    + rewrite Ho', Ho, <- app_assoc. reflexivity.
    + destruct Hr as [Hr|[detail Hr]]; rewrite Hr in *; simpl in *.
      * repeat split; try lia. exact Hin.
      * rewrite length_app in He. simpl in He. repeat split; try lia.
        intros r Hr'. apply Hin, in_or_app. now left.
Qed.

End Loop.

(** ** Ledger *)

(** C10. After the batch loop the ledger satisfies
    [sent + failed = number of contacts] and the failure list has [failed]
    entries; each iteration completes, increments exactly one of the two
    counters, and appends a failure record, for its own contact, exactly
    when the counter it increments is [failed]. *)
Theorem ledger_counts_every_contact :
  forall (D : Driver) (argv : Argv) (numbers : list string) (msgText : string)
         (attachments : list string) (st : State D),
    (exists ledger st',
        runBatch D argv numbers msgText attachments st = (Returned ledger, st')
        /\ sent ledger + failed ledger = length numbers
        /\ length (errors ledger) = failed ledger)
    /\ (forall (p : string) (st0 : State D),
           exists st1,
             iteration D msgText attachments (minMsOf argv) (maxMsOf argv) p st0
             = (Returned tt, st1)
             /\ ((sent (results st1) = S (sent (results st0))
                  /\ failed (results st1) = failed (results st0)
                  /\ errors (results st1) = errors (results st0))
                 \/ (sent (results st1) = sent (results st0)
                     /\ failed (results st1) = S (failed (results st0))
                     /\ exists detail,
                         errors (results st1)
                         = (errors (results st0) ++ [{| phone := p; error := detail |}])%list))).
Proof.
  intros D argv numbers msgText attachments st. split.
  - unfold runBatch, bind, initResults, getResults.
    match goal with
    | |- context [sendAll D ?m ?a ?lo ?hi ?ns ?s0] =>
        destruct (sendAll_returns D m a lo hi ns s0) as (st' & -> & _ & Hc & He & _)
    end.
    simpl in Hc, He. exists (results st'), st'. repeat split; lia.
  - intros p st0.
    destruct (iteration_returns D msgText attachments (minMsOf argv) (maxMsOf argv) p st0)
      as (st1 & Hrun & _ & [Hr|[detail Hr]]); exists st1; (split; [exact Hrun|]);
      rewrite Hr; simpl.
    + left. repeat split.
    + right. repeat split. now exists detail.
Qed.

(** ** Failure isolation *)

Lemma errorDetail_message (name message : string) :
  message <> EmptyString -> errorDetail (ErrorObj name message) = message.
Proof.
  intros H. simpl. apply String.eqb_neq in H. now rewrite H.
Qed.

(** C1. When the automation steps of a contact throw, the iteration
    records one more failure, for that contact and with the failure's
    message (the message of the thrown error when it has one), and the loop
    goes on: the whole batch runs to its end, every contact before and after
    the failing one is attempted in order, and the failure record is in the
    final ledger. *)
Theorem failure_is_isolated :
  forall (D : Driver) (msgText : string) (attachments : list string) (minMs maxMs : Z)
         (pre post : list string) (p : string) (st st1 st2 : State D) (err : Thrown),
    sendAll D msgText attachments minMs maxMs pre st = (Returned tt, st1) ->
    sendSteps D msgText attachments p st1 = (Threw err, st2) ->
    exists st3 st',
      iteration D msgText attachments minMs maxMs p st1 = (Returned tt, st3)
      /\ results st3 = oneMoreFailed (results st1) p (errorDetail err)
      /\ (forall name message,
             err = ErrorObj name message -> message <> EmptyString ->
             errorDetail err = message)
      /\ sendAll D msgText attachments minMs maxMs (pre ++ p :: post) st
         = sendAll D msgText attachments minMs maxMs post st3
      /\ sendAll D msgText attachments minMs maxMs post st3 = (Returned tt, st')
      /\ opened (log st') = (opened (log st) ++ pre ++ p :: post)%list
      /\ In {| phone := p; error := errorDetail err |} (errors (results st')).
Proof.
  intros D msgText attachments minMs maxMs pre post p st st1 st2 err Hpre Hthrow.
  pose proof (iteration_cases D msgText attachments minMs maxMs p st1) as Hit.
  destruct (sendSteps_opens D msgText attachments p st1) as (_ & Hr & Hl).
  rewrite Hthrow in Hit, Hr, Hl. simpl in Hr, Hl.
  destruct (sendAll_returns D msgText attachments minMs maxMs pre st)
    as (st1' & Hpre' & Hopre & _).
  rewrite Hpre in Hpre'. injection Hpre' as <-.
  match type of Hit with _ = (_, ?s) => set (st3 := s) in * end.
  destruct (sendAll_returns D msgText attachments minMs maxMs post st3)
    as (st' & Hpost & Hopost & _ & _ & Hin).
  exists st3, st'. repeat split.
  - exact Hit.
  - simpl. now rewrite Hr.
  - intros name message -> Hne. now apply errorDetail_message.
  - rewrite (sendAll_app D msgText attachments minMs maxMs pre (p :: post) st st1 Hpre).
    simpl. unfold bind. now rewrite Hit.
  - exact Hpost.
  - rewrite Hopost. subst st3. simpl. unfold opened in *.
    rewrite collect_app. simpl. rewrite app_nil_r, Hl, Hopre.
    rewrite <- !app_assoc. reflexivity.
  - apply Hin. subst st3. simpl. apply in_or_app. right. now left.
Qed.

Lemma failure_is_isolated_witness :
  let st1 := snd (sendAll demoClient "Hi" [] 2000 5000 ["111"] demoStart) in
  let st2 := snd (sendSteps demoClient "Hi" [] "222" st1) in
  sendAll demoClient "Hi" [] 2000 5000 ["111"] demoStart = (Returned tt, st1)
  /\ sendSteps demoClient "Hi" [] "222" st1
     = (Threw (newError "Composer not found"), st2)
  /\ exists st3 st',
      iteration demoClient "Hi" [] 2000 5000 "222" st1 = (Returned tt, st3)
      /\ results st3
         = oneMoreFailed (results st1) "222" (errorDetail (newError "Composer not found"))
      /\ (forall name message,
             newError "Composer not found" = ErrorObj name message ->
             message <> EmptyString ->
             errorDetail (newError "Composer not found") = message)
      /\ sendAll demoClient "Hi" [] 2000 5000 (["111"] ++ "222" :: ["333"]) demoStart
         = sendAll demoClient "Hi" [] 2000 5000 ["333"] st3
      /\ sendAll demoClient "Hi" [] 2000 5000 ["333"] st3 = (Returned tt, st')
      /\ opened (log st') = (opened (log demoStart) ++ ["111"] ++ "222" :: ["333"])%list
      /\ In {| phone := "222"; error := errorDetail (newError "Composer not found") |}
            (errors (results st')).
Proof.
  intros st1 st2.
  assert (Hpre : sendAll demoClient "Hi" [] 2000 5000 ["111"] demoStart
                 = (Returned tt, st1)) by (vm_compute; reflexivity).
  assert (Hthrow : sendSteps demoClient "Hi" [] "222" st1
                   = (Threw (newError "Composer not found"), st2))
    by (vm_compute; reflexivity).
  split; [exact Hpre|]. split; [exact Hthrow|].
  exact (failure_is_isolated demoClient "Hi" [] 2000 5000 ["111"] ["333"] "222"
           demoStart st1 st2 (newError "Composer not found") Hpre Hthrow).
Defined.

(** The run of the specification's example: contact 2 of 3 fails. *)
Example failure_isolation_run :
  fst (runBatch demoClient zeroDelays ["111"; "222"; "333"] "Hi" [] demoStart)
  = Returned {| sent := 2; failed := 1;
                errors := [{| phone := "222"; error := "Composer not found" |}] |}
  /\ opened (log (snd (runBatch demoClient zeroDelays ["111"; "222"; "333"] "Hi" []
                         demoStart)))
     = ["111"; "222"; "333"].
Proof. split; vm_compute; reflexivity. Qed.

(** ** Pacing *)

Lemma mathRound_bounds (min max : Z) (r : Q) :
  (min <= max)%Z -> (0 <= r)%Q -> (r < 1)%Q ->
  (min <= mathRound (randomBetween (inject_Z min) (inject_Z max) r) <= max)%Z.
Proof.
  intros Hmm H0 H1. unfold mathRound, randomBetween.
  assert (Hq : (inject_Z min <= inject_Z max)%Q) by (rewrite <- Zle_Qle; exact Hmm).
  set (a := inject_Z min) in *. set (b := inject_Z max) in *.
  assert (Hprod : (0 <= r * (b - a))%Q) by (apply Qmult_le_0_compat; lra).
  assert (Hprod' : (r * (b - a) <= b - a)%Q).
  { setoid_replace (b - a)%Q with (1 * (b - a))%Q at 2 by ring.
    apply Qmult_le_compat_r; lra. }
  split.
  - rewrite <- (Qfloor_Z min). apply Qfloor_resp_le. fold a. lra.
  - pose proof (Qfloor_le (a + r * (b - a) + (1 # 2))) as Hf.
    apply Z.lt_succ_r. rewrite Zlt_Qlt. unfold Z.succ. rewrite inject_Z_plus. fold b.
    change (inject_Z 1) with 1%Q. lra.
Qed.



(** [randomBetween] scales the random source affinely onto the interval:
    equal steps of the source are equal steps of the value. *)
Lemma randomBetween_affine (min max r1 r2 : Q) :
  (randomBetween min max r1 - randomBetween min max r2 == (r1 - r2) * (max - min))%Q.
Proof. unfold randomBetween. ring. Qed.






(** The two sleeps of the example run: 3500 ms after the sent contact, 2500
    ms after the failed one. *)
Example pacing_run :
  sleepsOf (log (snd (sendAll demoClient "Hi" [] 2000 5000 ["111"; "222"] demoStart)))
  = [inject_Z 3500; (1500 + (1 # 2) * 2000)%Q].
Proof. vm_compute. reflexivity. Qed.

(** ** Nothing to send *)

(** C9, as stated, fails: a contact with an empty message and no
    attachment is counted in [sent], although only its conversation was
    opened. *)
Lemma skip_counted_as_sent :
  fst (runBatch demoClient zeroDelays ["111"] EmptyString [] demoStart)
  = Returned {| sent := 1; failed := 0; errors := [] |}
  /\ stepsOf (log (snd (runBatch demoClient zeroDelays ["111"] EmptyString [] demoStart)))
     = [OpenChat "111"].
Proof. split; vm_compute; reflexivity. Qed.

(** C9, amended.  With an empty message and no attachment, when opening
    the conversation completes, the iteration performs no further automation
    step and records no failure; it counts the contact in [sent] (there is
    no separate skipped outcome) and ends with the pacing delay. *)
Theorem nothing_to_send_counts_as_sent :
  forall (D : Driver) (minMs maxMs : Z) (p : string) (st st1 : State D),
    step D (OpenChat p) (openChat D p) st = (Returned tt, st1) ->
    exists st',
      iteration D EmptyString [] minMs maxMs p st = (Returned tt, st')
      /\ stepsOf (log st') = (stepsOf (log st) ++ [OpenChat p])%list
      /\ results st' = oneMoreSent (results st)
      /\ failed (results st') = failed (results st)
      /\ errors (results st') = errors (results st)
      /\ log st' = (log st1 ++ [Slept (inject_Z (pacingDelay D minMs maxMs st1))])%list.
Proof.
  intros D minMs maxMs p st st1 Hopen.
  assert (Hadds : adds asStep (OpenChat p) (step D (OpenChat p) (openChat D p))).
  { unfold step. apply adds_bind; [now apply adds_record|]. intros _. frame_steps. }
  destruct (Hadds st) as (_ & Hr & Hl). rewrite Hopen in Hr, Hl. simpl in Hr, Hl.
  pose proof (iteration_cases D EmptyString [] minMs maxMs p st) as Hit.
  assert (Hsteps : sendSteps D EmptyString [] p st = (Returned tt, st1)).
  { unfold sendSteps. simpl. unfold bind at 1. now rewrite Hopen. }
  rewrite Hsteps in Hit. eexists. split; [exact Hit|]. simpl.
  rewrite Hr. repeat split.
  unfold stepsOf in *. rewrite collect_app. simpl. now rewrite app_nil_r.
Qed.

Lemma nothing_to_send_counts_as_sent_witness :
  let st1 := snd (step demoClient (OpenChat "111") (openChat demoClient "111") demoStart) in
  step demoClient (OpenChat "111") (openChat demoClient "111") demoStart
  = (Returned tt, st1)
  /\ exists st',
      iteration demoClient EmptyString [] 2000 5000 "111" demoStart = (Returned tt, st')
      /\ stepsOf (log st') = (stepsOf (log demoStart) ++ [OpenChat "111"])%list
      /\ results st' = oneMoreSent (results demoStart)
      /\ failed (results st') = failed (results demoStart)
      /\ errors (results st') = errors (results demoStart)
      /\ log st'
         = (log st1 ++ [Slept (inject_Z (pacingDelay demoClient 2000 5000 st1))])%list.
Proof.
  intros st1.
  assert (Hopen : step demoClient (OpenChat "111") (openChat demoClient "111") demoStart
                  = (Returned tt, st1)) by (vm_compute; reflexivity).
  split; [exact Hopen|].
  exact (nothing_to_send_counts_as_sent demoClient 2000 5000 "111" demoStart st1 Hopen).
Defined.

(** ** Opening a conversation *)

(** C5, as stated, fails: for the contact ["222"] no composer indicator
    ever appears, yet [openChat] returns normally after the 30 seconds. *)
Lemma openChat_returns_without_composer :
  (forall s, In s composerSelectors ->
             visibleAfter demoClient (chatUrl "222") s = None)
  /\ fst (openChat demoClient "222" demoStart) = Returned tt
  /\ log (snd (openChat demoClient "222" demoStart)) = [Waited 0; Waited 30000].
Proof.
  split; [|split; vm_compute; reflexivity].
  intros s Hs. simpl in Hs.
  repeat (destruct Hs as [<-|Hs]; [vm_compute; reflexivity|]). contradiction.
Qed.

(** C5, amended.  Once the page of the conversation is loaded, [openChat]
    waits for the composer indicators for at most 30000 ms and then returns
    normally, whether or not one of them appeared: it raises no error of
    its own. *)
Theorem openChat_waits_then_returns :
  forall (D : Driver) (p : string) (st sa sb st1 : State D) (body : Handle),
    call D (Goto (chatUrl p)) st = (Returned tt, sa) ->
    awaitSelector D "body" defaultTimeout sa = (Returned body, sb) ->
    call D (WaitForFunction "document.readyState === 'complete'") sb = (Returned tt, st1) ->
    exists t st2,
      (t <= 30000)%N
      /\ openChat D p st = (Returned tt, st2)
      /\ log st2 = (log st1 ++ [Waited t])%list
      /\ world st2 = elapse D (msQ t) (world st1).
Proof.
  intros D p st sa sb st1 body Hgo Hbody Hready.
  destruct (waitForAny_returns composerSelectors 30000 st1) as (t & found & Ht & Hw).
  exists t. eexists. split; [exact Ht|].
  unfold openChat, bind. fold (chatUrl p).
  rewrite Hgo, Hbody, Hready, Hw. simpl. repeat split.
Qed.

Lemma openChat_waits_then_returns_witness :
  let sa := snd (call demoClient (Goto (chatUrl "222")) demoStart) in
  let sb := snd (awaitSelector demoClient "body" defaultTimeout sa) in
  let st1 :=
    snd (call demoClient (WaitForFunction "document.readyState === 'complete'") sb) in
  call demoClient (Goto (chatUrl "222")) demoStart = (Returned tt, sa)
  /\ awaitSelector demoClient "body" defaultTimeout sa = (Returned (ElementFor "body"), sb)
  /\ call demoClient (WaitForFunction "document.readyState === 'complete'") sb
     = (Returned tt, st1)
  /\ exists t st2,
      (t <= 30000)%N
      /\ openChat demoClient "222" demoStart = (Returned tt, st2)
      /\ log st2 = (log st1 ++ [Waited t])%list
      /\ world st2 = elapse demoClient (msQ t) (world st1).
Proof.
  intros sa sb st1.
  assert (Hgo : call demoClient (Goto (chatUrl "222")) demoStart = (Returned tt, sa))
    by (vm_compute; reflexivity).
  assert (Hbody : awaitSelector demoClient "body" defaultTimeout sa
                  = (Returned (ElementFor "body"), sb)) by (vm_compute; reflexivity).
  assert (Hready : call demoClient (WaitForFunction "document.readyState === 'complete'") sb
                   = (Returned tt, st1)) by (vm_compute; reflexivity).
  split; [exact Hgo|]. split; [exact Hbody|]. split; [exact Hready|].
  exact (openChat_waits_then_returns demoClient "222" demoStart sa sb st1
           (ElementFor "body") Hgo Hbody Hready).
Defined.

(** The absent composer is reported by the step that follows: waiting for
    selectors none of which ever shows up finds nothing, and [typeMultiline]
    then throws. *)
Lemma promiseAll_absent (D : Driver) (w : World D) (selectors : list string) (timeout : N) :
  timeout <> 0%N ->
  (forall s, In s selectors -> visibleAfter D w s = None) ->
  exists t,
    promiseAll (map (fun s => orNull s (waitForSelector D w s timeout)) selectors)
    = Some (t, map (fun _ => None) selectors).
Proof.
  intros Hpos. apply N.eqb_neq in Hpos.
  induction selectors as [|s rest IH]; intros Habsent; simpl.
  - now exists 0%N.
  - destruct IH as (t & ->); [intros s' Hs'; apply Habsent; now right|].
    unfold waitForSelector. rewrite (Habsent s (or_introl eq_refl)), Hpos. simpl.
    now eexists.
Qed.

Lemma findTruthy_absent {A : Type} (l : list A) :
  findTruthy (map (fun _ => None) l) = None.
Proof. induction l; simpl; auto. Qed.

Lemma waitForAny_absent (D : Driver) (selectors : list string) (timeout : N) (st : State D) :
  timeout <> 0%N ->
  (forall s, In s selectors -> visibleAfter D (world st) s = None) ->
  exists t,
    waitForAny D selectors timeout st
    = (Returned None,
       {| world := elapse D (msQ t) (world st); draws := draws st;
          log := log st ++ [Waited t]; results := results st |}).
Proof.
  intros Hpos Habsent. unfold waitForAny.
  destruct (promiseAll_absent D (world st) selectors timeout Hpos Habsent) as (t & ->).
  unfold promiseRace, timerPromise.
  destruct (t <? timeout)%N; [|destruct (timeout <? t)%N; [|destruct (allWinsTie D)]];
    simpl; rewrite ?findTruthy_absent; eexists; reflexivity.
Qed.

Lemma typeMultiline_without_composer (D : Driver) (text : string) (st : State D) :
  (forall s, In s composerSelectors -> visibleAfter D (world st) s = None) ->
  exists st', typeMultiline D text st = (Threw (newError "Composer not found"), st').
Proof.
  intros Habsent. unfold typeMultiline, bind.
  destruct (waitForAny_absent D composerSelectors 15000 st) as (t & ->);
    [discriminate|exact Habsent|].
  now eexists.
Qed.

(** ** Readiness gate *)

(** The wait of [ensureLoggedIn] is raced against [sleep(0)]: it is over
    at once, whatever is on the page. *)
Lemma ready_wait_is_immediate (D : Driver) (st : State D) :
  exists found,
    waitForAny D readySelectors 0 st
    = (Returned found,
       {| world := elapse D (msQ 0) (world st); draws := draws st;
          log := log st ++ [Waited 0]; results := results st |}).
Proof.
  destruct (waitForAny_returns readySelectors 0 st) as (t & found & Ht & Hw).
  assert (t = 0%N) as -> by lia. now exists found.
Qed.

(** C6.  On a client whose readiness indicators show up 5000 ms after the
    landing page is requested, [ensureLoggedIn] returns after waiting 0 ms,
    before any indicator is visible; on every client its wait ends at once. *)
Theorem ensureLoggedIn_does_not_block :
  (forall s, In s readySelectors -> visibleAfter demoClient landingUrl s = Some 5000%N)
  /\ fst (ensureLoggedIn demoClient demoStart) = Returned tt
  /\ log (snd (ensureLoggedIn demoClient demoStart)) = [Waited 0]
  /\ (forall (D : Driver) (st : State D),
         exists found,
           waitForAny D readySelectors 0 st
           = (Returned found,
              {| world := elapse D (msQ 0) (world st); draws := draws st;
                 log := log st ++ [Waited 0]; results := results st |})).
Proof.
  split; [|split; [|split]].
  - intros s Hs. simpl in Hs.
    repeat (destruct Hs as [<-|Hs]; [vm_compute; reflexivity|]). contradiction.
  - vm_compute. reflexivity.
  - vm_compute. reflexivity.
  - exact ready_wait_is_immediate.
Qed.

(** ** Zero delays *)

(** With [--delayMin 0 --delayMax 0] the bounds the loop uses are 2000 and
    5000 ms, so every pacing delay is at least two seconds. *)
Lemma zero_delays_still_wait (D : Driver) (st : State D) :
  (0 <= random D (draws st))%Q -> (random D (draws st) < 1)%Q ->
  (2000 <= pacingDelay D (minMsOf zeroDelays) (maxMsOf zeroDelays) st <= 5000)%Z.
Proof.
  intros H0 H1. change (minMsOf zeroDelays) with 2000%Z.
  change (maxMsOf zeroDelays) with 5000%Z.
  unfold pacingDelay. apply mathRound_bounds; [lia|assumption|assumption].
Qed.

(** C7.  With [delayMin = 0] and [delayMax = 0], three reachable contacts,
    the message ["Hi"] and no attachment, the run performs the three
    open, type, send sequences and ends with the ledger [{sent: 3,
    failed: 0}], but the delay bounds are 2000 and 5000 ms because
    [0 || 2] is [2] and [0 || 5] is [5], and the run sleeps 3500 ms after
    each contact instead of not at all. *)
Theorem zero_delay_run :
  minMsOf zeroDelays = 2000%Z
  /\ maxMsOf zeroDelays = 5000%Z
  /\ fst (runBatch demoClient zeroDelays ["111"; "333"; "444"] "Hi" [] demoStart)
     = Returned {| sent := 3; failed := 0; errors := [] |}
  /\ stepsOf (log (snd (runBatch demoClient zeroDelays ["111"; "333"; "444"] "Hi" []
                          demoStart)))
     = [ OpenChat "111"; TypeMultiline "Hi"; ClickSend;
         OpenChat "333"; TypeMultiline "Hi"; ClickSend;
         OpenChat "444"; TypeMultiline "Hi"; ClickSend ]
  /\ sleepsOf (log (snd (runBatch demoClient zeroDelays ["111"; "333"; "444"] "Hi" []
                           demoStart)))
     = [inject_Z 3500; inject_Z 3500; inject_Z 3500].
Proof. repeat split; vm_compute; reflexivity. Qed.

(** ** More on the normaliser *)

Lemma forallChar_removeAll (p drop : ascii -> bool) (s : string) :
  forallChar p s = true -> forallChar p (removeAll drop s) = true.
Proof.
  induction s as [|c rest IH]; simpl; [reflexivity|].
  intros H. apply andb_true_iff in H as [Hc Hrest].
  destruct (drop c); simpl; [now apply IH|]. now rewrite Hc, IH.
Qed.

Lemma forallChar_append (p : ascii -> bool) (s1 s2 : string) :
  forallChar p (s1 ++ s2) = forallChar p s1 && forallChar p s2.
Proof.
  induction s1 as [|c rest IH]; simpl; [reflexivity|].
  now rewrite IH, andb_assoc.
Qed.

Lemma decimal_is_stripped (d : Decimal.uint) :
  forallChar matches_stripClass (NilEmpty.string_of_uint d) = true.
Proof. induction d; simpl; auto. Qed.

Lemma removeAll_append (drop : ascii -> bool) (s1 s2 : string) :
  removeAll drop (s1 ++ s2) = removeAll drop s1 ++ removeAll drop s2.
Proof.
  induction s1 as [|c rest IH]; simpl; [reflexivity|].
  destruct (drop c); simpl; now rewrite IH.
Qed.

Lemma decimalOf_digits (x : Z) : forallChar matches_stripClass (decimalOf x) = true.
Proof.
  unfold decimalOf, NilZero.string_of_uint.
  destruct (N.to_uint (Z.to_N x)); try reflexivity; apply decimal_is_stripped.
Qed.

Lemma zeros_digits (n : nat) : forallChar matches_stripClass (zeros n) = true.
Proof. induction n; simpl; auto. Qed.

(** Of the exponent form only the plus sign survives the stripping. *)
Lemma exponentForm_stripped (digits : string) (exponent : Z) :
  forallChar matches_stripClass digits = true ->
  removeAll matches_stripClass (exponentForm digits exponent) = "+".
Proof.
  intros Hd. unfold exponentForm. rewrite !removeAll_append.
  rewrite (removeAll_all _ (decimalOf exponent) (decimalOf_digits exponent)).
  assert (Hm : removeAll matches_stripClass
                 match digits with
                 | EmptyString => EmptyString
                 | String c rest =>
                     String c (if String.eqb rest EmptyString then EmptyString
                               else String "." rest)
                 end = EmptyString).
  { apply removeAll_all. destruct digits as [|c rest]; [reflexivity|].
    simpl in Hd |- *. apply andb_true_iff in Hd as [-> Hrest].
    destruct (String.eqb rest EmptyString); simpl; [reflexivity|exact Hrest]. }
  rewrite Hm. reflexivity.
Qed.

Lemma numberToString_stripped (n : Z) :
  removeAll matches_stripClass (numberToString n)
  = if printsExponent n then "+" else EmptyString.
Proof.
  unfold numberToString, printsExponent.
  destruct (n =? 0)%Z; [reflexivity|]. cbn [negb andb].
  set (x := doubleOfZ (Z.abs n)). rewrite removeAll_append.
  assert (Hsign : removeAll matches_stripClass (if (n <? 0)%Z then "-" else EmptyString)
                  = EmptyString) by (destruct (n <? 0)%Z; reflexivity).
  rewrite Hsign. cbn [append].
  rewrite (Z.ltb_antisym (2 ^ 1024) x).
  destruct (2 ^ 1024 <=? x)%Z; cbn [negb].
  - rewrite andb_false_r. reflexivity.
  - rewrite andb_true_r, (Z.leb_antisym x (10 ^ 21)).
    destruct (shortestDigits (String.length (decimalOf x)) x) as [digits p].
    destruct (x <? 10 ^ 21)%Z; cbn [negb].
    + apply removeAll_all. rewrite forallChar_append, decimalOf_digits, zeros_digits.
      reflexivity.
    + apply exponentForm_stripped, decimalOf_digits.
Qed.

(** X1. A numeric cell yields no identifier, except one: a number of 10^21
    or more (and not infinite) is printed in exponent form, of which the
    plus sign survives, and is normalised to ["+"]. *)
Theorem normalizePhone_number (n : Z) (cc : string) :
  normalizePhone (JsNumber n) cc = if printsExponent n then Some "+" else None.
Proof.
  unfold normalizePhone. cbn [truthy toString]. rewrite numberToString_stripped.
  unfold printsExponent. destruct (n =? 0)%Z; [reflexivity|]. cbn [negb andb].
  destruct (_ && _); reflexivity.
Qed.

(** X2. Whatever the normaliser returns is not empty and is a non-empty
    run of backslashes, [d]s and [+]s, with the country code in front or
    not: the only digits an identifier can hold are those of the country
    code. *)
Theorem normalizePhone_alphabet (raw : JsValue) (cc n : string) :
  normalizePhone raw cc = Some n ->
  n <> EmptyString
  /\ exists kept,
      (n = kept \/ n = cc ++ kept)
      /\ kept <> EmptyString
      /\ forallChar (fun c => negb (matches_stripClass c)) kept = true.
Proof.
  intros H. pose proof (normalizePhone_nonempty raw cc n H) as Hne.
  split; [exact Hne|].
  revert H. unfold normalizePhone.
  destruct (negb (truthy raw)); [discriminate|].
  pose proof (stripped_alphabet (toString raw)) as Halpha.
  set (digits := removeAll matches_stripClass (toString raw)) in *.
  destruct (String.eqb digits EmptyString) eqn:Hd; [discriminate|].
  apply String.eqb_neq in Hd.
  destruct (startsWith digits "+").
  - intros [= <-]. exists (removeAll matches_backslash digits).
    split; [now left|]. split; [assumption|]. now apply forallChar_removeAll.
  - destruct (_ && _); intros [= <-]; exists digits; auto.
Qed.

Lemma normalizePhone_alphabet_witness :
  normalizePhone (JsString "+d 12\") "91" = Some "+d"
  /\ "+d" <> EmptyString
  /\ exists kept,
      ("+d" = kept \/ "+d" = "91" ++ kept)
      /\ kept <> EmptyString
      /\ forallChar (fun c => negb (matches_stripClass c)) kept = true.
Proof.
  assert (H : normalizePhone (JsString "+d 12\") "91" = Some "+d") by reflexivity.
  split; [exact H|].
  exact (normalizePhone_alphabet (JsString "+d 12\") "91" "+d" H).
Defined.

(** X3. When the stripped value starts with [+], the result does not
    depend on the country code. *)
Theorem normalizePhone_plus_wins (raw : JsValue) (cc1 cc2 : string) :
  startsWith (removeAll matches_stripClass (toString raw)) "+" = true ->
  normalizePhone raw cc1 = normalizePhone raw cc2.
Proof. apply normalizePhone_plus_ignores_code. Qed.

Lemma normalizePhone_plus_wins_witness :
  startsWith (removeAll matches_stripClass (toString (JsString "+1 555-0100"))) "+" = true
  /\ normalizePhone (JsString "+1 555-0100") "91"
     = normalizePhone (JsString "+1 555-0100") "44".
Proof.
  assert (H : startsWith (removeAll matches_stripClass
                            (toString (JsString "+1 555-0100"))) "+" = true)
    by reflexivity.
  split; [exact H|].
  exact (normalizePhone_plus_wins (JsString "+1 555-0100") "91" "44" H).
Defined.

(** ** More on the loader *)

Lemma distinctInOrder_complete (seen l : list string) (x : string) :
  In x l -> ~ In x seen -> In x (Spec.distinctInOrder seen l).
Proof.
  revert seen. induction l as [|y rest IH]; intros seen; simpl; [tauto|].
  intros Hin Hseen.
  destruct (existsb (String.eqb y) seen) eqn:E.
  - apply IH; [|assumption]. destruct Hin as [->|]; [|assumption].
    exfalso. apply Hseen. apply existsb_exists in E as (z & Hz & Hzx).
    apply String.eqb_eq in Hzx. now subst.
  - destruct (string_dec y x) as [->|Hyx]; [now left|]. right.
    apply IH.
    + destruct Hin; [contradiction|assumption].
    + intros H. apply in_app_or in H as [H|[H|[]]]; [now apply Hseen|contradiction].
Qed.

Lemma identifiers_spec (rows : list Row) (cc n : string) :
  In n (identifiers rows cc)
  <-> exists row, In row rows /\ normalizePhone (phoneCell row) cc = Some n.
Proof.
  induction rows as [|row rest IH]; simpl.
  - split; [tauto|]. intros (row & [] & _).
  - destruct (normalizePhone (phoneCell row) cc) as [m|] eqn:E.
    + pose proof (normalizePhone_nonempty _ _ _ E) as Hne.
      apply String.eqb_neq in Hne. rewrite Hne. simpl. rewrite IH. split.
      * intros [<-|(r & Hr & Hn)]; [exists row; auto|exists r; auto].
      * intros (r & [<-|Hr] & Hn); [left; congruence|right; exists r; auto].
    + rewrite IH. split.
      * intros (r & Hr & Hn). exists r; auto.
      * intros (r & [<-|Hr] & Hn); [congruence|exists r; auto].
Qed.

(** X4. The loader returns the identifiers of the rows, each at its first
    occurrence and in the order of the sheet. *)
Theorem readExcelPhones_keeps_first_occurrences (rows : list Row) (cc : string) :
  readExcelPhones rows cc = Spec.distinctInOrder [] (identifiers rows cc).
Proof. apply readExcelPhones_first_occurrences. Qed.

(** X5. The loader never returns the same identifier twice. *)
Theorem readExcelPhones_distinct (rows : list Row) (cc : string) :
  NoDup (readExcelPhones rows cc).
Proof. apply readExcelPhones_NoDup. Qed.

(** X6. The loader returns exactly the identifiers that some row normalises
    to. *)
Theorem readExcelPhones_members (rows : list Row) (cc n : string) :
  In n (readExcelPhones rows cc)
  <-> exists row, In row rows /\ normalizePhone (phoneCell row) cc = Some n.
Proof.
  rewrite readExcelPhones_first_occurrences, <- identifiers_spec. split.
  - intros H. now apply distinctInOrder_fresh in H.
  - intros H. apply distinctInOrder_complete; auto.
Qed.

(** X7. Rows added at the end of the sheet never remove or reorder the
    identifiers found before them; what they add is new. *)
Theorem readExcelPhones_append (rows more : list Row) (cc : string) :
  exists added,
    readExcelPhones (rows ++ more) cc = (readExcelPhones rows cc ++ added)%list
    /\ forall n, In n added -> ~ In n (readExcelPhones rows cc).
Proof.
  unfold readExcelPhones. rewrite fold_left_app.
  rewrite (readExcelPhones_fold more cc).
  eexists. split; [reflexivity|].
  intros n Hn. now apply distinctInOrder_fresh in Hn.
Qed.

(** ** Deep links *)

Lemma hex_pair_roundtrip (c : ascii) :
  ascii_of_nat (hexValue (hexDigit (nat_of_ascii c / 16)) * 16
                + hexValue (hexDigit (nat_of_ascii c mod 16))) = c.
Proof. destruct c as [[|] [|] [|] [|] [|] [|] [|] [|]]; vm_compute; reflexivity. Qed.

Lemma hex_pair_unreserved (c : ascii) :
  isUnreserved (hexDigit (nat_of_ascii c / 16)) = true
  /\ isUnreserved (hexDigit (nat_of_ascii c mod 16)) = true.
Proof. destruct c as [[|] [|] [|] [|] [|] [|] [|] [|]]; vm_compute; split; reflexivity. Qed.

Lemma unreserved_not_percent (c : ascii) :
  isUnreserved c = true -> Ascii.eqb c "%"%char = false.
Proof. destruct c as [[|] [|] [|] [|] [|] [|] [|] [|]]; vm_compute; congruence. Qed.

Lemma percentDecode_encode (s : string) :
  percentDecode (encodeURIComponent s) = s.
Proof.
  induction s as [|c rest IH]; [reflexivity|].
  cbn [encodeURIComponent]. destruct (isUnreserved c) eqn:E.
  - cbn [percentDecode]. rewrite (unreserved_not_percent c E). now rewrite IH.
  - cbn [percentDecode]. rewrite Ascii.eqb_refl, hex_pair_roundtrip. now rewrite IH.
Qed.

Lemma encodeURIComponent_injective (s1 s2 : string) :
  encodeURIComponent s1 = encodeURIComponent s2 -> s1 = s2.
Proof.
  intros H. rewrite <- (percentDecode_encode s1), <- (percentDecode_encode s2).
  now rewrite H.
Qed.

Lemma append_cancel (prefix s1 s2 : string) : prefix ++ s1 = prefix ++ s2 -> s1 = s2.
Proof. induction prefix as [|c rest IH]; simpl; [auto|]. intros [= H]. auto. Qed.

(** X8. Two identifiers with the same deep link are the same identifier:
    two contacts of a batch never share the address [openChat] navigates
    to. *)
Theorem chatUrl_injective (p1 p2 : string) : chatUrl p1 = chatUrl p2 -> p1 = p2.
Proof.
  unfold chatUrl. intros H. apply append_cancel in H.
  now apply encodeURIComponent_injective.
Qed.

Lemma chatUrl_injective_witness :
  chatUrl "+d" = chatUrl (String "+" (String "d" EmptyString))
  /\ "+d" = String "+" (String "d" EmptyString).
Proof.
  assert (H : chatUrl "+d" = chatUrl (String "+" (String "d" EmptyString)))
    by reflexivity.
  split; [exact H|].
  exact (chatUrl_injective "+d" (String "+" (String "d" EmptyString)) H).
Defined.

Lemma encodeURIComponent_shape (s : string) :
  String.length (encodeURIComponent s)
  = String.length s + 2 * String.length (removeAll isUnreserved s)
  /\ forallChar (fun c => isUnreserved c || Ascii.eqb c "%"%char) (encodeURIComponent s)
     = true.
Proof.
  induction s as [|c rest [IHlen IHchars]]; [split; reflexivity|].
  cbn [encodeURIComponent removeAll]. destruct (isUnreserved c) eqn:E.
  - cbn [String.length forallChar]. rewrite E, IHlen, IHchars. split; [lia|reflexivity].
  - destruct (hex_pair_unreserved c) as [Hhi Hlo].
    cbn [String.length forallChar]. rewrite Hhi, Hlo, IHlen, IHchars.
    split; [lia|reflexivity].
Qed.

(** X9. The address [openChat] navigates to is the fixed prefix followed
    by the identifier with every reserved character turned into three: the
    part after the prefix holds only unreserved characters and percent
    signs, whatever the identifier. *)
Theorem chatUrl_shape (p : string) :
  exists encoded,
    chatUrl p = "https://web.whatsapp.com/send?phone=" ++ encoded
    /\ String.length encoded
       = String.length p + 2 * String.length (removeAll isUnreserved p)
    /\ forallChar (fun c => isUnreserved c || Ascii.eqb c "%"%char) encoded = true.
Proof.
  exists (encodeURIComponent p). split; [reflexivity|]. apply encodeURIComponent_shape.
Qed.

Lemma encodeURIComponent_digits (s : string) :
  forallChar Spec.isDigit s = true -> encodeURIComponent s = s.
Proof.
  induction s as [|c rest IH]; [reflexivity|].
  cbn [forallChar encodeURIComponent]. intros H.
  apply andb_true_iff in H as [Hc Hrest].
  assert (E : isUnreserved c = true).
  { revert Hc. destruct c as [[|] [|] [|] [|] [|] [|] [|] [|]]; vm_compute; congruence. }
  rewrite E. f_equal. now apply IH.
Qed.

(** X10. For an identifier made of digits the address [openChat] navigates
    to is the prefix followed by the identifier as it is. *)
Theorem chatUrl_digits (p : string) :
  forallChar Spec.isDigit p = true ->
  chatUrl p = "https://web.whatsapp.com/send?phone=" ++ p.
Proof.
  intros H. unfold chatUrl. now rewrite encodeURIComponent_digits.
Qed.

Lemma chatUrl_digits_witness :
  forallChar Spec.isDigit "15550100" = true
  /\ chatUrl "15550100" = "https://web.whatsapp.com/send?phone=" ++ "15550100".
Proof.
  assert (H : forallChar Spec.isDigit "15550100" = true) by reflexivity.
  split; [exact H|]. exact (chatUrl_digits "15550100" H).
Defined.

(** ** Waiting for one of several selectors *)

Lemma waitForAny_settled (D : Driver) (selectors : list string) (timeout : N)
    (st : State D) (t : N) (values : list (option Found)) :
  promiseAll (map (fun s => orNull s (waitForSelector D (world st) s timeout)) selectors)
  = Some (t, values) ->
  waitForAny D selectors timeout st
  = if (t <? timeout)%N then (Returned (findTruthy values), afterWait st t)
    else if (timeout <? t)%N then (Returned None, afterWait st timeout)
    else if allWinsTie D then (Returned (findTruthy values), afterWait st t)
    else (Returned None, afterWait st timeout).
Proof.
  intros H. unfold waitForAny. rewrite H. unfold promiseRace, timerPromise.
  destruct (t <? timeout)%N; [reflexivity|].
  destruct (timeout <? t)%N; [reflexivity|].
  destruct (allWinsTie D); reflexivity.
Qed.

Lemma promiseAll_found {A B : Type} (g : A -> Promise (option B)) (l : list A)
    (t : N) (values : list (option B)) (b : B) :
  promiseAll (map g l) = Some (t, values) ->
  (fix first (vs : list (option B)) : option B :=
     match vs with
     | [] => None
     | Some x :: _ => Some x
     | None :: rest => first rest
     end) values = Some b ->
  exists a ta, In a l /\ g a = Some (ta, Some b).
Proof.
  revert t values. induction l as [|a rest IH]; intros t values; simpl.
  - intros [= <- <-]. discriminate.
  - destruct (g a) as [[ta va]|] eqn:Ea; [|discriminate].
    destruct (promiseAll (map g rest)) as [[ts vs]|] eqn:Er; [|discriminate].
    intros [= <- <-]. destruct va as [x|].
    + intros [= ->]. exists a, ta. auto.
    + intros H. destruct (IH ts vs eq_refl H) as (a' & ta' & Hin & Hg).
      exists a', ta'. auto.
Qed.

(** X11. [waitForAny] never throws and never hangs: it returns after at
    most [timeout] ms, and at once when the timeout is 0. *)
Theorem waitForAny_bounded (D : Driver) (selectors : list string) (timeout : N)
    (st : State D) :
  exists t found,
    (t <= timeout)%N
    /\ waitForAny D selectors timeout st = (Returned found, afterWait st t).
Proof.
  destruct (waitForAny_returns selectors timeout st) as (t & found & Ht & Hw).
  now exists t, found.
Qed.

(** X12. What [waitForAny] reports was really there: the element it returns
    belongs to one of the selectors asked for, and that selector showed up
    before the timeout (or at some time, when there is no timeout). *)
Theorem waitForAny_sound (D : Driver) (selectors : list string) (timeout : N)
    (st st' : State D) (found : Found) :
  waitForAny D selectors timeout st = (Returned (Some found), st') ->
  In (sel found) selectors
  /\ handle found = ElementFor (sel found)
  /\ exists t,
      visibleAfter D (world st) (sel found) = Some t
      /\ (timeout = 0%N \/ (t < timeout)%N).
Proof.
  intros H.
  destruct (promiseAll (map (fun s => orNull s (waitForSelector D (world st) s timeout))
                          selectors)) as [[t values]|] eqn:Eall.
  - rewrite (waitForAny_settled D selectors timeout st t values Eall) in H.
    assert (Hfound : findTruthy values = Some found).
    { destruct (t <? timeout)%N; [congruence|].
      destruct (timeout <? t)%N; [discriminate|].
      destruct (allWinsTie D); [congruence|discriminate]. }
    destruct (promiseAll_found _ _ _ _ _ Eall Hfound) as (s & ts & Hin & Hs).
    unfold orNull, waitForSelector in Hs.
    destruct (visibleAfter D (world st) s) as [tv|] eqn:Ev.
    + destruct ((timeout =? 0)%N || (tv <? timeout)%N) eqn:Ec; [|discriminate].
      injection Hs as <- <-. simpl. rewrite Ev.
      repeat split; [assumption|]. exists tv. split; [reflexivity|].
      apply orb_true_iff in Ec as [Ec|Ec];
        [left; now apply N.eqb_eq|right; now apply N.ltb_lt].
    + destruct (timeout =? 0)%N; discriminate.
  - unfold waitForAny in H. rewrite Eall in H. simpl in H. discriminate.
Qed.

Lemma waitForAny_sound_witness :
  waitForAny promptClient sendSelectors 10000 promptStart
  = (Returned (Some {| sel := "button" ++ attr "data-testid" "compose-btn-send";
                       handle := ElementFor ("button" ++ attr "data-testid" "compose-btn-send") |}),
     afterWait promptStart 0)
  /\ In ("button" ++ attr "data-testid" "compose-btn-send") sendSelectors
  /\ ElementFor ("button" ++ attr "data-testid" "compose-btn-send")
     = ElementFor ("button" ++ attr "data-testid" "compose-btn-send")
  /\ exists t,
      visibleAfter promptClient (world promptStart)
        ("button" ++ attr "data-testid" "compose-btn-send") = Some t
      /\ (10000%N = 0%N \/ (t < 10000)%N).
Proof.
  assert (H : waitForAny promptClient sendSelectors 10000 promptStart
              = (Returned (Some {| sel := "button" ++ attr "data-testid" "compose-btn-send";
                                   handle := ElementFor
                                     ("button" ++ attr "data-testid" "compose-btn-send") |}),
                 afterWait promptStart 0)) by (vm_compute; reflexivity).
  split; [exact H|].
  exact (waitForAny_sound promptClient sendSelectors 10000 promptStart _ _ H).
Defined.

(** How the promises of a selector list settle under a real timeout. *)
Lemma promiseAll_timed (D : Driver) (w : World D) (timeout : N) (selectors : list string) :
  timeout <> 0%N ->
  exists t values,
    promiseAll (map (fun s => orNull s (waitForSelector D w s timeout)) selectors)
    = Some (t, values)
    /\ findTruthy values = firstVisible D w timeout selectors
    /\ (t <= timeout)%N
    /\ (forall s ts, In s selectors -> visibleAfter D w s = Some ts ->
                     (ts < timeout)%N -> (ts <= t)%N)
    /\ ((forall s, In s selectors ->
                   exists ts, visibleAfter D w s = Some ts /\ (ts < timeout)%N) ->
        (t < timeout)%N)
    /\ ((exists s, In s selectors
                   /\ forall ts, visibleAfter D w s = Some ts -> (timeout <= ts)%N) ->
        t = timeout).
Proof.
  intros Hpos. pose proof Hpos as Hpos'. apply N.eqb_neq in Hpos'.
  induction selectors as [|s rest IH].
  - exists 0%N, []. simpl. repeat split; try lia; try tauto.
    intros (s & [] & _).
  - destruct IH as (t & values & Hall & Hfirst & Hle & Hslow & Hquick & Hlate).
    cbn [map promiseAll firstVisible]. rewrite Hall. unfold waitForSelector.
    rewrite Hpos'. cbn [orb].
    destruct (visibleAfter D w s) as [tv|] eqn:Ev;
      [destruct (tv <? timeout)%N eqn:Elt|]; cbn [orNull].
    + apply N.ltb_lt in Elt.
      eexists; eexists; split; [reflexivity|]. cbn [findTruthy].
      split; [reflexivity|]. split; [lia|]. split; [|split].
      * intros s' ts [<-|Hin] Hs' Hts; [assert (ts = tv) by congruence; lia|].
        specialize (Hslow s' ts Hin Hs' Hts). lia.
      * intros Hall'. assert ((t < timeout)%N); [|lia].
        apply Hquick. intros s' Hs'. apply Hall'. now right.
      * intros (s' & [<-|Hin] & Hs').
        -- specialize (Hs' tv Ev). lia.
        -- assert (t = timeout) by (apply Hlate; eauto). lia.
    + apply N.ltb_ge in Elt.
      eexists; eexists; split; [reflexivity|]. cbn [findTruthy].
      split; [exact Hfirst|]. split; [lia|]. split; [|split].
      * intros s' ts [<-|Hin] Hs' Hts; [assert (ts = tv) by congruence; lia|].
        specialize (Hslow s' ts Hin Hs' Hts). lia.
      * intros Hall'. destruct (Hall' s (or_introl eq_refl)) as (ts & Hs & Hts).
        assert (ts = tv) by congruence. lia.
      * intros _. lia.
    + eexists; eexists; split; [reflexivity|]. cbn [findTruthy].
      split; [exact Hfirst|]. split; [lia|]. split; [|split].
      * intros s' ts [<-|Hin] Hs' Hts; [congruence|].
        specialize (Hslow s' ts Hin Hs' Hts). lia.
      * intros Hall'. destruct (Hall' s (or_introl eq_refl)) as (ts & Hs & Hts).
        congruence.
      * intros _. lia.
Qed.

Lemma waitForAny_all_before (D : Driver) (s0 : string) (rest : list string)
    (timeout : N) (st : State D) :
  (forall s, In s (s0 :: rest) ->
             exists ts, visibleAfter D (world st) s = Some ts /\ (ts < timeout)%N) ->
  exists t,
    (t < timeout)%N
    /\ waitForAny D (s0 :: rest) timeout st
       = (Returned (Some {| sel := s0; handle := ElementFor s0 |}), afterWait st t)
    /\ forall s ts, In s (s0 :: rest) -> visibleAfter D (world st) s = Some ts ->
                    (ts <= t)%N.
Proof.
  intros Hall.
  assert (Hpos : timeout <> 0%N).
  { destruct (Hall s0 (or_introl eq_refl)) as (ts & _ & Hts). lia. }
  destruct (promiseAll_timed D (world st) timeout (s0 :: rest) Hpos)
    as (t & values & Hp & Hfirst & _ & Hslow & Hquick & _).
  specialize (Hquick Hall). exists t. split; [assumption|]. split.
  - rewrite (waitForAny_settled D _ timeout st t values Hp).
    apply N.ltb_lt in Hquick. rewrite Hquick, Hfirst. cbn [firstVisible].
    destruct (Hall s0 (or_introl eq_refl)) as (ts & -> & Hts).
    apply N.ltb_lt in Hts. now rewrite Hts.
  - intros s ts Hin Hs. destruct (Hall s Hin) as (ts' & Hs' & Hts').
    assert (ts = ts') by congruence. subst. eauto.
Qed.

(** X13. When every selector of the list shows up before the timeout,
    [waitForAny] returns the first selector of the list, not the first to
    show up, and only once the slowest of them is there. *)
Theorem waitForAny_waits_for_all (D : Driver) (s0 : string) (rest : list string)
    (timeout : N) (st : State D) :
  (forall s, In s (s0 :: rest) ->
             exists ts, visibleAfter D (world st) s = Some ts /\ (ts < timeout)%N) ->
  exists t,
    (t < timeout)%N
    /\ waitForAny D (s0 :: rest) timeout st
       = (Returned (Some {| sel := s0; handle := ElementFor s0 |}), afterWait st t)
    /\ forall s ts, In s (s0 :: rest) -> visibleAfter D (world st) s = Some ts ->
                    (ts <= t)%N.
Proof. apply waitForAny_all_before. Qed.

Lemma waitForAny_waits_for_all_witness :
  (forall s, In s ("a" :: ["b"]) ->
             exists ts, visibleAfter promptClient (world promptStart) s = Some ts
                        /\ (ts < 10000)%N)
  /\ exists t,
      (t < 10000)%N
      /\ waitForAny promptClient ("a" :: ["b"]) 10000 promptStart
         = (Returned (Some {| sel := "a"; handle := ElementFor "a" |}),
            afterWait promptStart t)
      /\ forall s ts, In s ("a" :: ["b"]) ->
                      visibleAfter promptClient (world promptStart) s = Some ts ->
                      (ts <= t)%N.
Proof.
  assert (H : forall s, In s ("a" :: ["b"]) ->
                        exists ts, visibleAfter promptClient (world promptStart) s = Some ts
                                   /\ (ts < 10000)%N).
  { intros s [<-|[<-|[]]]; exists 0%N; split; reflexivity. }
  split; [exact H|].
  exact (waitForAny_waits_for_all promptClient "a" ["b"] 10000 promptStart H).
Defined.

(** X14. When one selector of the list does not show up before the timeout,
    the wait lasts the whole timeout even if another selector was there at
    once; what it then reports depends on which side of the race settles
    first: the first visible selector, or nothing at all. *)
Theorem waitForAny_one_missing (D : Driver) (selectors : list string) (timeout : N)
    (st : State D) (missing : string) :
  timeout <> 0%N ->
  In missing selectors ->
  (forall ts, visibleAfter D (world st) missing = Some ts -> (timeout <= ts)%N) ->
  waitForAny D selectors timeout st
  = (Returned (if allWinsTie D then firstVisible D (world st) timeout selectors else None),
     afterWait st timeout).
Proof.
  intros Hpos Hin Hmissing.
  destruct (promiseAll_timed D (world st) timeout selectors Hpos)
    as (t & values & Hp & Hfirst & _ & _ & _ & Hlate).
  assert (t = timeout) as -> by (apply Hlate; eauto).
  rewrite (waitForAny_settled D _ timeout st timeout values Hp).
  rewrite N.ltb_irrefl, Hfirst. now destruct (allWinsTie D).
Qed.

Lemma waitForAny_one_missing_witness :
  1000%N <> 0%N
  /\ In "b" ["body"; "b"]
  /\ (forall ts, visibleAfter demoClient (world (startState demoClient landingUrl)) "b"
                 = Some ts -> (1000 <= ts)%N)
  /\ waitForAny demoClient ["body"; "b"] 1000 (startState demoClient landingUrl)
     = (Returned (if allWinsTie demoClient
                  then firstVisible demoClient (world (startState demoClient landingUrl))
                         1000 ["body"; "b"]
                  else None),
        afterWait (startState demoClient landingUrl) 1000).
Proof.
  assert (Hpos : 1000%N <> 0%N) by discriminate.
  assert (Hin : In "b" ["body"; "b"]) by (right; left; reflexivity).
  assert (Hlate : forall ts,
             visibleAfter demoClient (world (startState demoClient landingUrl)) "b"
             = Some ts -> (1000 <= ts)%N).
  { intros ts H. vm_compute in H. injection H as <-. discriminate. }
  split; [exact Hpos|]. split; [exact Hin|]. split; [exact Hlate|].
  exact (waitForAny_one_missing demoClient ["body"; "b"] 1000
           (startState demoClient landingUrl) "b" Hpos Hin Hlate).
Defined.

(** ** Controls that are not there *)

Lemma firstVisible_none (D : Driver) (w : World D) (timeout : N) (selectors : list string) :
  (forall s ts, In s selectors -> visibleAfter D w s = Some ts -> (timeout <= ts)%N) ->
  firstVisible D w timeout selectors = None.
Proof.
  induction selectors as [|s rest IH]; intros H; simpl; [reflexivity|].
  assert (Hrest : firstVisible D w timeout rest = None).
  { apply IH. intros s' ts' Hin Hs'. apply (H s' ts'); [now right|assumption]. }
  destruct (visibleAfter D w s) as [ts|] eqn:E; [|exact Hrest].
  pose proof (H s ts (or_introl eq_refl) E) as Hs. apply N.ltb_ge in Hs.
  now rewrite Hs.
Qed.

(** A wait none of whose selectors shows up before the timeout finds
    nothing, whichever side of the race settles first. *)
Lemma waitForAny_nothing (D : Driver) (selectors : list string) (timeout : N)
    (st : State D) :
  timeout <> 0%N ->
  (forall s ts, In s selectors -> visibleAfter D (world st) s = Some ts ->
                (timeout <= ts)%N) ->
  exists t, (t <= timeout)%N
            /\ waitForAny D selectors timeout st = (Returned None, afterWait st t).
Proof.
  intros Hpos Hlate.
  destruct (promiseAll_timed D (world st) timeout selectors Hpos)
    as (t & values & Hp & Hfirst & Hle & _).
  rewrite (waitForAny_settled D _ timeout st t values Hp), Hfirst.
  rewrite (firstVisible_none D (world st) timeout selectors Hlate).
  destruct (t <? timeout)%N; [exists t; auto|].
  destruct (timeout <? t)%N; [exists timeout; split; [lia|reflexivity]|].
  destruct (allWinsTie D); [exists t; auto|exists timeout; split; [lia|reflexivity]].
Qed.

(** X15. [typeMultiline] gives up with [Composer not found] after at most 15
    seconds when no composer shows up in that time; nothing is typed. *)
Theorem typeMultiline_composer_missing (D : Driver) (text : string) (st : State D) :
  (forall s ts, In s composerSelectors -> visibleAfter D (world st) s = Some ts ->
                (15000 <= ts)%N) ->
  exists t, (t <= 15000)%N
            /\ typeMultiline D text st
               = (Threw (newError "Composer not found"), afterWait st t).
Proof.
  intros Hlate.
  destruct (waitForAny_nothing D composerSelectors 15000 st) as (t & Ht & Hw);
    [discriminate|exact Hlate|].
  exists t. split; [exact Ht|]. unfold typeMultiline, bind. now rewrite Hw.
Qed.

Lemma typeMultiline_composer_missing_witness :
  (forall s ts, In s composerSelectors ->
                visibleAfter demoClient (world unreachableStart) s = Some ts ->
                (15000 <= ts)%N)
  /\ exists t, (t <= 15000)%N
               /\ typeMultiline demoClient "Hi" unreachableStart
                  = (Threw (newError "Composer not found"), afterWait unreachableStart t).
Proof.
  assert (H : forall s ts, In s composerSelectors ->
                visibleAfter demoClient (world unreachableStart) s = Some ts ->
                (15000 <= ts)%N).
  { intros s ts Hs. simpl in Hs.
    repeat (destruct Hs as [<-|Hs]; [vm_compute; discriminate|]). contradiction. }
  split; [exact H|].
  exact (typeMultiline_composer_missing demoClient "Hi" unreachableStart H).
Defined.

(** X16. [clickSend] gives up with [Send button not found] after at most 10
    seconds when no send control shows up in that time; nothing is clicked. *)
Theorem clickSend_button_missing (D : Driver) (st : State D) :
  (forall s ts, In s sendSelectors -> visibleAfter D (world st) s = Some ts ->
                (10000 <= ts)%N) ->
  exists t, (t <= 10000)%N
            /\ clickSend D st = (Threw (newError "Send button not found"), afterWait st t).
Proof.
  intros Hlate.
  destruct (waitForAny_nothing D sendSelectors 10000 st) as (t & Ht & Hw);
    [discriminate|exact Hlate|].
  exists t. split; [exact Ht|]. unfold clickSend, bind. now rewrite Hw.
Qed.

Lemma clickSend_button_missing_witness :
  (forall s ts, In s sendSelectors ->
                visibleAfter demoClient (world unreachableStart) s = Some ts ->
                (10000 <= ts)%N)
  /\ exists t, (t <= 10000)%N
               /\ clickSend demoClient unreachableStart
                  = (Threw (newError "Send button not found"), afterWait unreachableStart t).
Proof.
  assert (H : forall s ts, In s sendSelectors ->
                visibleAfter demoClient (world unreachableStart) s = Some ts ->
                (10000 <= ts)%N).
  { intros s ts Hs. simpl in Hs.
    repeat (destruct Hs as [<-|Hs]; [vm_compute; discriminate|]). contradiction. }
  split; [exact H|].
  exact (clickSend_button_missing demoClient unreachableStart H).
Defined.

(** X17. With files to attach, [attachFiles] gives up with
    [Attach button not found] after at most 10 seconds when no attach
    control shows up in that time; nothing is uploaded. *)
Theorem attachFiles_button_missing (D : Driver) (file : string) (files : list string)
    (st : State D) :
  (forall s ts, In s clipSelectors -> visibleAfter D (world st) s = Some ts ->
                (10000 <= ts)%N) ->
  exists t, (t <= 10000)%N
            /\ attachFiles D (file :: files) st
               = (Threw (newError "Attach button not found"), afterWait st t).
Proof.
  intros Hlate.
  destruct (waitForAny_nothing D clipSelectors 10000 st) as (t & Ht & Hw);
    [discriminate|exact Hlate|].
  exists t. split; [exact Ht|]. unfold attachFiles, bind. now rewrite Hw.
Qed.

Lemma attachFiles_button_missing_witness :
  (forall s ts, In s clipSelectors ->
                visibleAfter demoClient (world unreachableStart) s = Some ts ->
                (10000 <= ts)%N)
  /\ exists t, (t <= 10000)%N
               /\ attachFiles demoClient ("/a.png" :: []) unreachableStart
                  = (Threw (newError "Attach button not found"),
                     afterWait unreachableStart t).
Proof.
  assert (H : forall s ts, In s clipSelectors ->
                visibleAfter demoClient (world unreachableStart) s = Some ts ->
                (10000 <= ts)%N).
  { intros s ts Hs. simpl in Hs.
    repeat (destruct Hs as [<-|Hs]; [vm_compute; discriminate|]). contradiction. }
  split; [exact H|].
  exact (attachFiles_button_missing demoClient "/a.png" [] unreachableStart H).
Defined.

(** X18. Once the files are handed to the file input, [attachFiles] waits at
    most 30 seconds for a preview and returns normally whether or not one
    showed up: a missing preview is not an error. *)
Theorem attachFiles_ignores_preview (D : Driver) (file : string) (files : list string)
    (st s1 s2 s3 s4 : State D) (clip : Found) (fileInput : Handle) :
  waitForAny D clipSelectors 10000 st = (Returned (Some clip), s1) ->
  call D (Click (handle clip)) s1 = (Returned tt, s2) ->
  awaitSelector D fileInputSelector 10000 s2 = (Returned fileInput, s3) ->
  call D (UploadFile fileInput (file :: files)) s3 = (Returned tt, s4) ->
  exists t, (t <= 30000)%N
            /\ attachFiles D (file :: files) st = (Returned tt, afterWait s4 t).
Proof.
  intros Hclip Hclick Hinput Hupload.
  destruct (waitForAny_returns previewSelectors 30000 s4) as (t & found & Ht & Hw).
  exists t. split; [exact Ht|].
  unfold attachFiles, bind. now rewrite Hclip, Hclick, Hinput, Hupload, Hw.
Qed.

Lemma attachFiles_ignores_preview_witness :
  let clip := {| sel := "button" ++ attr "data-testid" "attach-button";
                 handle := ElementFor ("button" ++ attr "data-testid" "attach-button") |} in
  let s1 := snd (waitForAny promptClient clipSelectors 10000 promptStart) in
  let s2 := snd (call promptClient (Click (handle clip)) s1) in
  let s3 := snd (awaitSelector promptClient fileInputSelector 10000 s2) in
  let s4 :=
    snd (call promptClient (UploadFile (ElementFor fileInputSelector) ["/a.png"]) s3) in
  waitForAny promptClient clipSelectors 10000 promptStart = (Returned (Some clip), s1)
  /\ call promptClient (Click (handle clip)) s1 = (Returned tt, s2)
  /\ awaitSelector promptClient fileInputSelector 10000 s2
     = (Returned (ElementFor fileInputSelector), s3)
  /\ call promptClient (UploadFile (ElementFor fileInputSelector) ["/a.png"]) s3
     = (Returned tt, s4)
  /\ exists t, (t <= 30000)%N
               /\ attachFiles promptClient ["/a.png"] promptStart
                  = (Returned tt, afterWait s4 t).
Proof.
  intros clip s1 s2 s3 s4.
  assert (H1 : waitForAny promptClient clipSelectors 10000 promptStart
               = (Returned (Some clip), s1)) by (vm_compute; reflexivity).
  assert (H2 : call promptClient (Click (handle clip)) s1 = (Returned tt, s2))
    by (vm_compute; reflexivity).
  assert (H3 : awaitSelector promptClient fileInputSelector 10000 s2
               = (Returned (ElementFor fileInputSelector), s3))
    by (vm_compute; reflexivity).
  assert (H4 : call promptClient (UploadFile (ElementFor fileInputSelector) ["/a.png"]) s3
               = (Returned tt, s4)) by (vm_compute; reflexivity).
  split; [exact H1|]. split; [exact H2|]. split; [exact H3|]. split; [exact H4|].
  exact (attachFiles_ignores_preview promptClient "/a.png" [] promptStart s1 s2 s3 s4
           clip (ElementFor fileInputSelector) H1 H2 H3 H4).
Defined.

(** ** Typing a message *)

Lemma bind_returned {D : Driver} {A B : Type} (c : M D A) (k : A -> M D B)
    (st st' : State D) (b : B) :
  bind D c k st = (Returned b, st') ->
  exists a s1, c st = (Returned a, s1) /\ k a s1 = (Returned b, st').
Proof.
  unfold bind. destruct (c st) as [[a|err|] s1]; intros H; try discriminate. eauto.
Qed.

Lemma call_keeps_log {D : Driver} (c : Call) (st st' : State D) (r : Outcome unit) :
  call D c st = (r, st') -> log st' = log st /\ draws st' = draws st.
Proof.
  unfold call. destruct (perform D c (world st)) as [[err|] w]; intros [= <- <-]; auto.
Qed.

Lemma splitLines_length (s : string) : length (splitLines s) = S (lineBreaks s).
Proof.
  induction s as [|c rest IH]; simpl; [reflexivity|].
  destruct (Ascii.eqb c "010"%char); simpl; [now rewrite IH|].
  destruct (splitLines rest); simpl in *; [discriminate|exact IH].
Qed.

Lemma typeLines_pauses (D : Driver) :
  (forall i, (0 <= random D i)%Q /\ (random D i < 1)%Q) ->
  forall (lines : list string) (st st' : State D),
    typeLines D lines st = (Returned tt, st') ->
    exists pauses,
      sleepsOf (log st') = (sleepsOf (log st) ++ pauses)%list
      /\ length pauses = pred (length lines)
      /\ Forall (fun q => (50 <= q)%Q /\ (q < 200)%Q) pauses.
Proof.
  intros Hrand. induction lines as [|line rest IH]; intros st st' H.
  - simpl in H. injection H as <-. exists []. rewrite app_nil_r. auto.
  - cbn [typeLines] in H.
    apply bind_returned in H as (a & s1 & Htype & H).
    apply bind_returned in H as (b & s2 & Hbreak & H).
    assert (Hlog1 : log s1 = log st).
    { destruct (String.eqb line EmptyString).
      - now injection Htype as _ <-.
      - apply bind_returned in Htype as (r & s0 & Hr & Hc).
        injection Hr as _ <-. now apply call_keeps_log in Hc as [-> _]. }
    destruct rest as [|next rest].
    + injection Hbreak as _ <-. simpl in H. injection H as <-.
      exists []. rewrite app_nil_r, Hlog1. auto.
    + apply bind_returned in Hbreak as (u1 & sa & Ha & Hbreak).
      apply bind_returned in Hbreak as (u2 & sb & Hb & Hbreak).
      apply bind_returned in Hbreak as (u3 & sc & Hc & Hbreak).
      apply bind_returned in Hbreak as (r & sd & Hr & Hsleep).
      apply call_keeps_log in Ha as [La _], Hb as [Lb _], Hc as [Lc _].
      unfold mathRandom in Hr. injection Hr as Hr1 Hr2.
      unfold sleep in Hsleep. injection Hsleep as Hs2.
      subst r sd s2.
      destruct (IH _ _ H) as (pauses & Hp & Hlen & Hall).
      exists ((50 + random D (draws sc) * 150)%Q :: pauses).
      split; [|split].
      * rewrite Hp. simpl. unfold sleepsOf. rewrite collect_app. simpl.
        rewrite Lc, Lb, La, Hlog1, <- app_assoc. reflexivity.
      * simpl in *. now rewrite Hlen.
      * constructor; [|exact Hall].
        destruct (Hrand (draws sc)). split; lra.
Qed.

(** X19. When [typeMultiline] completes, it has paused once for every line
    break of the text, each time for at least 50 and less than 200 ms, and
    not at all for a text of one line. *)
Theorem typeMultiline_pauses (D : Driver) (text : string) (st st' : State D) :
  (forall i, (0 <= random D i)%Q /\ (random D i < 1)%Q) ->
  typeMultiline D text st = (Returned tt, st') ->
  exists pauses,
    sleepsOf (log st') = (sleepsOf (log st) ++ pauses)%list
    /\ length pauses = lineBreaks text
    /\ Forall (fun q => (50 <= q)%Q /\ (q < 200)%Q) pauses.
Proof.
  intros Hrand H. unfold typeMultiline in H.
  apply bind_returned in H as (target & s1 & Hwait & H).
  destruct (waitForAny_returns composerSelectors 15000 st) as (t & found & _ & Hw).
  rewrite Hw in Hwait. injection Hwait as _ <-.
  destruct target as [box|]; [|discriminate].
  apply bind_returned in H as (u & s2 & Hfocus & H).
  apply call_keeps_log in Hfocus as [Lf _].
  destruct (typeLines_pauses D Hrand _ _ _ H) as (pauses & Hp & Hlen & Hall).
  exists pauses. split; [|split; [|exact Hall]].
  - rewrite Hp, Lf. simpl. unfold sleepsOf. rewrite collect_app. simpl.
    now rewrite app_nil_r.
  - now rewrite Hlen, splitLines_length.
Qed.

Lemma typeMultiline_pauses_witness :
  let text := "A" ++ String "010"%char "B" in
  let st' := snd (typeMultiline promptClient text promptStart) in
  (forall i, (0 <= random promptClient i)%Q /\ (random promptClient i < 1)%Q)
  /\ typeMultiline promptClient text promptStart = (Returned tt, st')
  /\ exists pauses,
      sleepsOf (log st') = (sleepsOf (log promptStart) ++ pauses)%list
      /\ length pauses = lineBreaks text
      /\ Forall (fun q => (50 <= q)%Q /\ (q < 200)%Q) pauses.
Proof.
  intros text st'.
  assert (Hrand : forall i, (0 <= random promptClient i)%Q /\ (random promptClient i < 1)%Q).
  { intros i. simpl. split; reflexivity || discriminate. }
  assert (H : typeMultiline promptClient text promptStart = (Returned tt, st'))
    by (vm_compute; reflexivity).
  split; [exact Hrand|]. split; [exact H|].
  exact (typeMultiline_pauses promptClient text promptStart st' Hrand H).
Defined.

(** ** The order of the steps of a job *)

Lemma step_adds {D : Driver} {A : Type} (s : Step) (c : M D A) :
  respects asStep c -> adds asStep s (step D s c).
Proof.
  intros Hc. unfold step. apply adds_bind; [now apply adds_record|].
  intros _. exact Hc.
Qed.

Lemma follows_nil (D : Driver) : follows (ret D tt) [].
Proof.
  intros st. exists 0. simpl. rewrite app_nil_r.
  split; [reflexivity|]. split; [reflexivity|congruence].
Qed.

Lemma follows_last {D : Driver} (s : Step) (c : M D unit) :
  respects asStep c -> follows (step D s c) [s].
Proof.
  intros Hc st. destruct (step_adds s c Hc st) as (_ & _ & Hl).
  exists 1. split; [exact Hl|]. split; [reflexivity|auto].
Qed.

Lemma follows_cons {D : Driver} {A : Type} (s : Step) (c : M D A) (rest : M D unit)
    (plan : list Step) :
  respects asStep c -> follows rest plan ->
  follows (bind D (step D s c) (fun _ => rest)) (s :: plan).
Proof.
  intros Hc Hrest st. unfold bind.
  destruct (step_adds s c Hc st) as (Hp & _ & Hl).
  destruct (step D s c st) as [[a|err|] s1]; simpl in *.
  - destruct (Hrest s1) as (k & Hk & Hall & _). exists (S k). simpl.
    split; [|split; [|lia]].
    + unfold stepsOf in *. rewrite Hk, Hl, <- app_assoc. reflexivity.
    + intros H. now rewrite (Hall H).
  - exists 1. simpl. split; [exact Hl|]. split; [discriminate|lia].
  - congruence.
Qed.

Lemma sendSteps_follows (D : Driver) (msgText : string) (attachments : list string)
    (p : string) :
  follows (sendSteps D msgText attachments p) (plannedSteps msgText attachments p).
Proof.
  unfold sendSteps, plannedSteps.
  destruct attachments as [|file files]; destruct (String.eqb msgText EmptyString);
    cbn [app].
  - apply follows_cons; [frame_steps|apply follows_nil].
  - apply follows_cons; [frame_steps|].
    apply follows_cons; [frame_steps|]. apply follows_last. frame_steps.
  - apply follows_cons; [frame_steps|].
    apply follows_cons; [frame_steps|].
    intros st. apply (follows_last ClickSend (clickSend D)). frame_steps.
  - apply follows_cons; [frame_steps|].
    apply follows_cons; [frame_steps|].
    apply follows_cons; [frame_steps|]. apply follows_last. frame_steps.
Qed.

(** X20. The steps a job performs are always an initial part of: open the
    conversation, attach the files (if any), type the message (if any),
    send.  The job performs all of them when it returns, and it always
    opens the conversation. *)
Theorem sendSteps_follow_plan (D : Driver) (msgText : string) (attachments : list string)
    (p : string) :
  follows (sendSteps D msgText attachments p) (plannedSteps msgText attachments p).
Proof. apply sendSteps_follows. Qed.

(** ** A batch on a responsive client *)

Lemma returns_ret {D : Driver} {A : Type} (a : A) : returns (ret D a).
Proof. intros st. now exists a, st. Qed.

Lemma returns_bind {D : Driver} {A B : Type} (c : M D A) (k : A -> M D B) :
  returns c -> (forall a, returns (k a)) -> returns (bind D c k).
Proof.
  intros Hc Hk st. unfold bind. destruct (Hc st) as (a & s1 & ->). apply Hk.
Qed.

Lemma responsive_call (D : Driver) (c : Call) : responsive D -> returns (call D c).
Proof.
  intros [Hcalls _] st. unfold call. pose proof (Hcalls c (world st)) as H.
  destruct (perform D c (world st)) as [err w]. simpl in H. subst err.
  now exists tt, (setWorld D w st).
Qed.

Lemma returns_mathRandom (D : Driver) : returns (mathRandom D).
Proof. intros st. unfold mathRandom. eauto. Qed.

Lemma returns_sleep (D : Driver) (ms : Q) : returns (sleep D ms).
Proof. intros st. unfold sleep. eauto. Qed.

Lemma returns_record (D : Driver) (e : Event) : returns (record D e).
Proof. intros st. unfold record. eauto. Qed.

Lemma responsive_waitForAny (D : Driver) (s0 : string) (rest : list string)
    (timeout : N) (st : State D) :
  responsive D -> (10000 <= timeout)%N ->
  exists t,
    waitForAny D (s0 :: rest) timeout st
    = (Returned (Some {| sel := s0; handle := ElementFor s0 |}), afterWait st t).
Proof.
  intros [_ Hvisible] Hlong.
  destruct (waitForAny_all_before D s0 rest timeout st) as (t & _ & Hw & _).
  - intros s _. destruct (Hvisible (world st) s) as (ts & Hs & Hts).
    exists ts. split; [assumption|lia].
  - now exists t.
Qed.

Ltac found_at HD :=
  match goal with
  | |- context [waitForAny ?D (?s0 :: ?others) ?timeout ?s] =>
      let t := fresh "t" in
      destruct (responsive_waitForAny D s0 others timeout s HD) as (t & ->);
      [discriminate|]
  end.

Lemma responsive_awaitSelector (D : Driver) (selector : string) (timeout : N) :
  responsive D -> (10000 <= timeout)%N -> returns (awaitSelector D selector timeout).
Proof.
  intros [_ Hvisible] Hlong st. unfold awaitSelector, waitForSelector.
  destruct (Hvisible (world st) selector) as (ts & -> & Hts).
  assert (Hlt : (ts <? timeout)%N = true) by (apply N.ltb_lt; lia).
  rewrite Hlt, orb_true_r. unfold await. eauto.
Qed.

Lemma responsive_typeLines (D : Driver) (lines : list string) :
  responsive D -> returns (typeLines D lines).
Proof.
  intros HD. induction lines as [|line rest IH]; [apply returns_ret|].
  cbn [typeLines]. apply returns_bind.
  - destruct (String.eqb line EmptyString); [apply returns_ret|].
    apply returns_bind; [apply returns_mathRandom|]. intros r. now apply responsive_call.
  - intros _. apply returns_bind; [|intros _; exact IH].
    destruct rest; [apply returns_ret|].
    repeat (apply returns_bind; [now apply responsive_call|intros _]).
    apply returns_bind; [apply returns_mathRandom|]. intros r. apply returns_sleep.
Qed.

Lemma responsive_openChat (D : Driver) (p : string) :
  responsive D -> returns (openChat D p).
Proof.
  intros HD. unfold openChat.
  apply returns_bind; [now apply responsive_call|intros _].
  apply returns_bind; [apply responsive_awaitSelector; [assumption|discriminate]|intros _].
  apply returns_bind; [now apply responsive_call|intros _].
  apply returns_bind; [|intros _; apply returns_ret].
  intros st. unfold composerSelectors.
  found_at HD. eauto.
Qed.

Lemma responsive_typeMultiline (D : Driver) (text : string) :
  responsive D -> returns (typeMultiline D text).
Proof.
  intros HD st. unfold typeMultiline, bind, composerSelectors.
  found_at HD.
  apply (returns_bind (call D _) (fun _ => typeLines D (splitLines text))).
  - now apply responsive_call.
  - intros _. now apply responsive_typeLines.
Qed.

Lemma responsive_clickSend (D : Driver) : responsive D -> returns (clickSend D).
Proof.
  intros HD st. unfold clickSend, bind, sendSelectors.
  found_at HD.
  now apply responsive_call.
Qed.

Lemma responsive_attachFiles (D : Driver) (files : list string) :
  responsive D -> returns (attachFiles D files).
Proof.
  intros HD st. unfold attachFiles. destruct files as [|file files]; [apply returns_ret|].
  unfold bind at 1. unfold clipSelectors.
  found_at HD.
  apply (returns_bind (call D _)); [now apply responsive_call|intros _].
  apply returns_bind; [apply responsive_awaitSelector; [assumption|discriminate]|].
  intros fileInput.
  apply returns_bind; [now apply responsive_call|intros _].
  apply returns_bind; [|intros _; apply returns_ret].
  intros s4. unfold previewSelectors.
  found_at HD. eauto.
Qed.

Lemma responsive_sendSteps (D : Driver) (msgText : string) (attachments : list string)
    (p : string) :
  responsive D -> returns (sendSteps D msgText attachments p).
Proof.
  intros HD. unfold sendSteps, step.
  assert (Hopen := responsive_openChat D p HD).
  assert (Htype := responsive_typeMultiline D msgText HD).
  assert (Hsend := responsive_clickSend D HD).
  assert (Hattach := responsive_attachFiles D attachments HD).
  destruct attachments as [|file files]; destruct (String.eqb msgText EmptyString);
    repeat first [ apply returns_ret | apply returns_record | assumption
                 | apply returns_bind; [|intros ?] ].
Qed.

Lemma responsive_sendAll (D : Driver) (msgText : string) (attachments : list string)
    (minMs maxMs : Z) :
  responsive D ->
  forall (numbers : list string) (st : State D),
    exists st',
      sendAll D msgText attachments minMs maxMs numbers st = (Returned tt, st')
      /\ results st'
         = {| sent := sent (results st) + length numbers;
              failed := failed (results st);
              errors := errors (results st) |}
      /\ stepsOf (log st')
         = (stepsOf (log st) ++ flat_map (plannedSteps msgText attachments) numbers)%list.
Proof.
  intros HD. induction numbers as [|p rest IH]; intros st.
  - exists st. simpl. rewrite Nat.add_0_r, app_nil_r. destruct (results st). auto.
  - cbn [sendAll flat_map]. unfold bind.
    pose proof (iteration_cases D msgText attachments minMs maxMs p st) as Hit.
    destruct (sendSteps_opens D msgText attachments p st) as (_ & Hr & _).
    destruct (sendSteps_follows D msgText attachments p st) as (k & Hk & Hall & _).
    destruct (responsive_sendSteps D msgText attachments p HD st) as ([] & s1 & Hs).
    rewrite Hs in Hit, Hr, Hk, Hall. cbn [fst snd] in Hr, Hk, Hall. rewrite Hit.
    rewrite (Hall eq_refl), firstn_all in Hk.
    match goal with |- context [sendAll _ _ _ _ _ _ ?s] => destruct (IH s) as (st' & -> & Hres & Hsteps) end.
    exists st'. split; [reflexivity|]. simpl in Hres, Hsteps. split.
    + rewrite Hres, Hr. simpl. f_equal. lia.
    + rewrite Hsteps. unfold stepsOf in *. rewrite collect_app. simpl.
      rewrite app_nil_r, Hk, <- app_assoc. reflexivity.
Qed.

(** X21. On a client where no driver call throws and every element shows
    up within ten seconds, every contact of the batch is sent: the ledger ends
    with [sent] the number of contacts and no failure, and the steps
    performed are the full open, attach, type, send plan of each contact in
    turn. *)
Theorem responsive_batch_sends_all (D : Driver) (argv : Argv) (numbers : list string)
    (msgText : string) (attachments : list string) (st : State D) :
  responsive D ->
  exists st',
    runBatch D argv numbers msgText attachments st
    = (Returned {| sent := length numbers; failed := 0; errors := [] |}, st')
    /\ stepsOf (log st')
       = (stepsOf (log st) ++ flat_map (plannedSteps msgText attachments) numbers)%list.
Proof.
  intros HD. unfold runBatch, bind, initResults, getResults.
  match goal with
  | |- context [sendAll D ?m ?a ?lo ?hi ?ns ?s0] =>
      destruct (responsive_sendAll D m a lo hi HD ns s0) as (st' & -> & Hres & Hsteps)
  end.
  exists st'. simpl in Hres, Hsteps. now rewrite Hres.
Qed.

Lemma promptClient_responsive : responsive promptClient.
Proof.
  split.
  - intros c w. destruct c; reflexivity.
  - intros w s. simpl.
    destruct (String.eqb s "body"); [exists 0%N; split; reflexivity|].
    destruct (String.eqb w landingUrl); exists 0%N; split; reflexivity.
Defined.

Lemma responsive_batch_sends_all_witness :
  responsive promptClient
  /\ exists st',
      runBatch promptClient zeroDelays ["111"; "222"] "Hi" ["/a.png"] promptStart
      = (Returned {| sent := length ["111"; "222"]; failed := 0; errors := [] |}, st')
      /\ stepsOf (log st')
         = (stepsOf (log promptStart)
            ++ flat_map (plannedSteps "Hi" ["/a.png"]) ["111"; "222"])%list.
Proof.
  split; [exact promptClient_responsive|].
  exact (responsive_batch_sends_all promptClient zeroDelays ["111"; "222"] "Hi" ["/a.png"]
           promptStart promptClient_responsive).
Defined.

(** ** The whole run *)

Lemma identifiers_none (rows : list Row) (cc : string) :
  (forall row, In row rows -> normalizePhone (phoneCell row) cc = None) ->
  identifiers rows cc = [].
Proof.
  induction rows as [|row rest IH]; intros H; simpl; [reflexivity|].
  rewrite (H row (or_introl eq_refl)). apply IH. intros r Hr. apply H. now right.
Qed.

(** X22. A sheet whose phone cells are all numbers below 10^21 (those not
    printed in exponent form) or digit-only strings yields no contact at
    all: [main] stops with the "no phone numbers" exit before the browser
    is launched. *)
Theorem main_exits_on_plain_numbers (D : Driver) (argv : Argv) (rows : list Row)
    (msgText : string) (attachments : list string) (st : State D) :
  (forall row, In row rows ->
               (exists n, phoneCell row = JsNumber n /\ printsExponent n = false)
               \/ (exists digits, phoneCell row = JsString digits
                                  /\ forallChar Spec.isDigit digits = true)) ->
  readExcelPhones rows (countryCode argv) = []
  /\ main D argv rows msgText attachments st = (Returned None, st).
Proof.
  intros Hrows.
  assert (Hnone : readExcelPhones rows (countryCode argv) = []).
  { rewrite readExcelPhones_first_occurrences, identifiers_none; [reflexivity|].
    intros row Hin. destruct (Hrows row Hin) as [(n & -> & Hn)|(digits & -> & Hd)].
    - unfold normalizePhone. cbn [toString].
      rewrite numberToString_stripped, Hn.
      destruct (negb (truthy (JsNumber n))); reflexivity.
    - now apply normalizePhone_digits_null. }
  split; [exact Hnone|]. unfold main. now rewrite Hnone.
Qed.

Lemma main_exits_on_plain_numbers_witness :
  (forall row,
      In row [[("phone", JsString "15550100")]; [("phone", JsNumber 919876543210)]] ->
      (exists n, phoneCell row = JsNumber n /\ printsExponent n = false)
      \/ (exists digits, phoneCell row = JsString digits
                         /\ forallChar Spec.isDigit digits = true))
  /\ readExcelPhones [[("phone", JsString "15550100")]; [("phone", JsNumber 919876543210)]]
       (countryCode zeroDelays) = []
  /\ main demoClient zeroDelays
       [[("phone", JsString "15550100")]; [("phone", JsNumber 919876543210)]]
       "Hi" [] demoStart
     = (Returned None, demoStart).
Proof.
  assert (H : forall row,
             In row [[("phone", JsString "15550100")];
                     [("phone", JsNumber 919876543210)]] ->
             (exists n, phoneCell row = JsNumber n /\ printsExponent n = false)
             \/ (exists digits, phoneCell row = JsString digits
                                /\ forallChar Spec.isDigit digits = true)).
  { intros row [<-|[<-|[]]].
    - right. exists "15550100". split; reflexivity.
    - left. exists 919876543210%Z. split; [reflexivity|vm_compute; reflexivity]. }
  split; [exact H|].
  exact (main_exits_on_plain_numbers demoClient zeroDelays _ "Hi" [] demoStart H).
Defined.

(** X23. When the sheet yields contacts and launching the browser, loading the
    landing page and closing the browser do not throw, [main] completes
    with a ledger: no failure of a contact escapes the loop.  Every contact
    of the sheet is attempted, in order, and counted once. *)
Theorem main_reports_every_contact (D : Driver) (argv : Argv) (rows : list Row)
    (msgText : string) (attachments : list string) (st : State D) :
  readExcelPhones rows (countryCode argv) <> [] ->
  (forall w, fst (perform D (Launch (headless argv)) w) = None) ->
  (forall w, fst (perform D (Goto landingUrl) w) = None) ->
  (forall w, fst (perform D Close w) = None) ->
  exists ledger st',
    main D argv rows msgText attachments st = (Returned (Some ledger), st')
    /\ sent ledger + failed ledger = length (readExcelPhones rows (countryCode argv))
    /\ length (errors ledger) = failed ledger
    /\ opened (log st')
       = (opened (log st) ++ readExcelPhones rows (countryCode argv))%list.
Proof.
  intros Hsome Hlaunch Hland Hclose. unfold main.
  destruct (readExcelPhones rows (countryCode argv)) as [|p rest] eqn:Hnumbers;
    [congruence|].
  set (numbers := p :: rest).
  unfold bind at 1. unfold call at 1.
  pose proof (Hlaunch (world st)) as H1.
  destruct (perform D (Launch (headless argv)) (world st)) as [e1 w1].
  simpl in H1. subst e1.
  unfold ensureLoggedIn, bind at 1. unfold bind at 1. unfold call at 1.
  change "https://web.whatsapp.com" with landingUrl.
  pose proof (Hland (world (setWorld D w1 st))) as H2.
  destruct (perform D (Goto landingUrl) (world (setWorld D w1 st))) as [e2 w2].
  simpl in H2. subst e2.
  unfold bind at 1.
  destruct (waitForAny_returns readySelectors 0 (setWorld D w2 (setWorld D w1 st)))
    as (t & found & _ & ->).
  unfold ret at 1. unfold bind at 1. unfold runBatch, bind at 1, initResults.
  unfold bind at 1.
  match goal with
  | |- context [sendAll D ?m ?a ?lo ?hi ?ns ?s0] =>
      destruct (sendAll_returns D m a lo hi ns s0) as (s3 & -> & Ho & Hc & He & _)
  end.
  unfold getResults, bind at 1. unfold call at 1.
  pose proof (Hclose (world s3)) as H3.
  destruct (perform D Close (world s3)) as [e3 w3]. simpl in H3. subst e3.
  exists (results s3), (setWorld D w3 s3). simpl in Ho, Hc, He |- *.
  split; [reflexivity|]. split; [exact Hc|]. split; [lia|].
  rewrite Ho. unfold opened. rewrite collect_app. simpl. now rewrite app_nil_r.
Qed.

Lemma main_reports_every_contact_witness :
  readExcelPhones [[("phone", JsString "+1 555")]] (countryCode zeroDelays) <> []
  /\ (forall w, fst (perform demoClient (Launch (headless zeroDelays)) w) = None)
  /\ (forall w, fst (perform demoClient (Goto landingUrl) w) = None)
  /\ (forall w, fst (perform demoClient Close w) = None)
  /\ exists ledger st',
      main demoClient zeroDelays [[("phone", JsString "+1 555")]] "Hi" [] demoStart
      = (Returned (Some ledger), st')
      /\ sent ledger + failed ledger
         = length (readExcelPhones [[("phone", JsString "+1 555")]] (countryCode zeroDelays))
      /\ length (errors ledger) = failed ledger
      /\ opened (log st')
         = (opened (log demoStart)
            ++ readExcelPhones [[("phone", JsString "+1 555")]] (countryCode zeroDelays))%list.
Proof.
  assert (H0 : readExcelPhones [[("phone", JsString "+1 555")]] (countryCode zeroDelays)
               <> []) by (vm_compute; discriminate).
  assert (H1 : forall w, fst (perform demoClient (Launch (headless zeroDelays)) w) = None)
    by reflexivity.
  assert (H2 : forall w, fst (perform demoClient (Goto landingUrl) w) = None)
    by reflexivity.
  assert (H3 : forall w, fst (perform demoClient Close w) = None) by reflexivity.
  split; [exact H0|]. split; [exact H1|]. split; [exact H2|]. split; [exact H3|].
  exact (main_reports_every_contact demoClient zeroDelays [[("phone", JsString "+1 555")]]
           "Hi" [] demoStart H0 H1 H2 H3).
Defined.

(** ** Rounding to a double *)

Ltac qcompare H :=
  match type of H with
  | (_ ?= _)%Q = Eq => apply Qeq_alt in H
  | (_ ?= _)%Q = Lt => apply Qlt_alt in H
  | (_ ?= _)%Q = Gt => apply Qgt_alt in H
  end.

Lemma pow2_pos (z : Z) : (0 < pow2 z)%Q.
Proof. apply Qpower_0_lt. reflexivity. Qed.

Lemma pow2_add (a b : Z) : (pow2 (a + b) == pow2 a * pow2 b)%Q.
Proof. apply Qpower_plus. discriminate. Qed.

Lemma pow2_le (a b : Z) : (a <= b)%Z -> (pow2 a <= pow2 b)%Q.
Proof. intros H. apply Qpower_le_compat_l; [exact H|discriminate]. Qed.

Lemma pow2_lt (a b : Z) : (a < b)%Z -> (pow2 a < pow2 b)%Q.
Proof. intros H. apply Qpower_lt_compat_l; [exact H|reflexivity]. Qed.

Lemma pow2_lt_inv (a b : Z) : (pow2 a < pow2 b)%Q -> (a < b)%Z.
Proof. intros H. apply (Qpower_lt_compat_l_inv 2); [exact H|reflexivity]. Qed.

Lemma pow2_Z (a : Z) : (0 <= a)%Z -> (pow2 a == inject_Z (2 ^ a))%Q.
Proof. intros H. unfold pow2. now rewrite Zpower_Qpower. Qed.

Lemma floorLog2_spec (q : Q) :
  (0 < q)%Q -> (pow2 (floorLog2 q) <= q)%Q /\ (q < pow2 (floorLog2 q + 1))%Q.
Proof.
  intros Hq. unfold floorLog2.
  destruct q as [n d]. cbn [Qnum Qden].
  assert (Hn : (0 < n)%Z) by (unfold Qlt in Hq; simpl in Hq; lia).
  set (a := Z.log2 n). set (b := Z.log2 (Z.pos d)).
  destruct (Z.log2_spec n Hn) as [Hn1 Hn2]. fold a in Hn1, Hn2.
  destruct (Z.log2_spec (Z.pos d) (Pos2Z.is_pos d)) as [Hd1 Hd2]. fold b in Hd1, Hd2.
  assert (Ha : (0 <= a)%Z) by apply Z.log2_nonneg.
  assert (Hb : (0 <= b)%Z) by apply Z.log2_nonneg.
  assert (Eq : (n # d == inject_Z n / inject_Z (Z.pos d))%Q) by apply Qmake_Qdiv.
  assert (Hdpos : (0 < inject_Z (Z.pos d))%Q) by reflexivity.
  assert (Hmul : ((n # d) * inject_Z (Z.pos d) == inject_Z n)%Q).
  { rewrite Eq. field. intros H. rewrite H in Hdpos. discriminate. }
  assert (Qn1 : (pow2 a <= inject_Z n)%Q) by (rewrite pow2_Z, <- Zle_Qle; assumption).
  assert (Qn2 : (inject_Z n < pow2 (a + 1))%Q)
    by (rewrite pow2_Z, <- Zlt_Qlt; [assumption|lia]).
  assert (Qd1 : (pow2 b <= inject_Z (Z.pos d))%Q) by (rewrite pow2_Z, <- Zle_Qle; assumption).
  assert (Qd2 : (inject_Z (Z.pos d) < pow2 (b + 1))%Q)
    by (rewrite pow2_Z, <- Zlt_Qlt; [assumption|lia]).
  assert (Hup : (n # d < pow2 (a - b + 1))%Q).
  { apply (Qmult_lt_r _ _ (inject_Z (Z.pos d)) Hdpos). rewrite Hmul.
    apply Qlt_le_trans with (pow2 (a + 1)); [assumption|].
    replace (a + 1)%Z with ((a - b + 1) + b)%Z by lia. rewrite pow2_add.
    apply Qmult_le_l; [apply pow2_pos|assumption]. }
  assert (Hlow : (pow2 (a - b - 1) <= n # d)%Q).
  { apply (Qmult_le_r _ _ (inject_Z (Z.pos d)) Hdpos). rewrite Hmul.
    apply Qle_trans with (pow2 a); [|assumption].
    replace a with ((a - b - 1) + (b + 1))%Z at 2 by lia. rewrite pow2_add.
    apply Qmult_le_l; [apply pow2_pos|]. now apply Qlt_le_weak. }
  destruct (Qle_bool (pow2 (a - b)) (n # d)) eqn:E.
  - apply Qle_bool_iff in E. split; assumption.
  - split; [assumption|].
    replace (a - b - 1 + 1)%Z with (a - b)%Z by lia.
    apply Qnot_le_lt. intros H. apply Qle_bool_iff in H. congruence.
Qed.

Lemma floorLog2_mono (q1 q2 : Q) :
  (0 < q1)%Q -> (q1 <= q2)%Q -> (floorLog2 q1 <= floorLog2 q2)%Z.
Proof.
  intros H1 H12.
  assert (H2 : (0 < q2)%Q) by (eapply Qlt_le_trans; eauto).
  destruct (floorLog2_spec q1 H1) as [L1 _].
  destruct (floorLog2_spec q2 H2) as [_ U2].
  assert (H : (pow2 (floorLog2 q1) < pow2 (floorLog2 q2 + 1))%Q).
  { eapply Qle_lt_trans; [exact L1|]. eapply Qle_lt_trans; eauto. }
  apply pow2_lt_inv in H. lia.
Qed.

Lemma roundHalfEven_bounds (x : Q) :
  (Qfloor x <= roundHalfEven x <= Qfloor x + 1)%Z.
Proof.
  unfold roundHalfEven. destruct (_ ?= _)%Q; [destruct (Z.even _)| |]; lia.
Qed.

Lemma roundHalfEven_Z (z : Z) : roundHalfEven (inject_Z z) = z.
Proof.
  unfold roundHalfEven. rewrite Qfloor_Z.
  assert (H : (inject_Z z - inject_Z z ?= 1 # 2)%Q = Lt).
  { apply Qlt_alt. ring_simplify (inject_Z z - inject_Z z)%Q. reflexivity. }
  now rewrite H.
Qed.

Lemma roundHalfEven_mono (x y : Q) : (x <= y)%Q -> (roundHalfEven x <= roundHalfEven y)%Z.
Proof.
  intros Hxy. pose proof (Qfloor_resp_le x y Hxy) as Hf.
  pose proof (roundHalfEven_bounds x) as Bx. pose proof (roundHalfEven_bounds y) as By.
  destruct (Z.eq_dec (Qfloor x) (Qfloor y)) as [E|NE]; [|lia].
  unfold roundHalfEven. rewrite E.
  destruct (x - inject_Z (Qfloor y) ?= 1 # 2)%Q eqn:Cx;
    destruct (y - inject_Z (Qfloor y) ?= 1 # 2)%Q eqn:Cy;
    try (destruct (Z.even (Qfloor y))); try lia;
    qcompare Cx; qcompare Cy; exfalso; lra.
Qed.

Lemma roundPositive_below (q : Q) (z : Z) :
  (q <= inject_Z z * pow2 (Z.max (floorLog2 q - 52) (-1074)))%Q ->
  (roundPositive q <= inject_Z z * pow2 (Z.max (floorLog2 q - 52) (-1074)))%Q.
Proof.
  intros H. unfold roundPositive.
  set (e := Z.max (floorLog2 q - 52) (-1074)) in *.
  apply Qmult_le_r; [apply pow2_pos|]. rewrite <- Zle_Qle.
  rewrite <- (roundHalfEven_Z z). apply roundHalfEven_mono.
  apply Qle_shift_div_r; [apply pow2_pos|exact H].
Qed.

Lemma roundPositive_above (q : Q) (z : Z) :
  (inject_Z z * pow2 (Z.max (floorLog2 q - 52) (-1074)) <= q)%Q ->
  (inject_Z z * pow2 (Z.max (floorLog2 q - 52) (-1074)) <= roundPositive q)%Q.
Proof.
  intros H. unfold roundPositive.
  set (e := Z.max (floorLog2 q - 52) (-1074)) in *.
  apply Qmult_le_r; [apply pow2_pos|]. rewrite <- Zle_Qle.
  rewrite <- (roundHalfEven_Z z) at 1. apply roundHalfEven_mono.
  apply Qle_shift_div_l; [apply pow2_pos|exact H].
Qed.

Lemma roundPositive_nonneg (q : Q) : (0 < q)%Q -> (0 <= roundPositive q)%Q.
Proof.
  intros Hq. pose proof (roundPositive_above q 0) as H.
  rewrite Qmult_0_l in H. apply H. now apply Qlt_le_weak.
Qed.

Lemma roundPositive_mono (q1 q2 : Q) :
  (0 < q1)%Q -> (q1 <= q2)%Q -> (roundPositive q1 <= roundPositive q2)%Q.
Proof.
  intros H1 H12.
  assert (H2 : (0 < q2)%Q) by (eapply Qlt_le_trans; eauto).
  pose proof (floorLog2_mono q1 q2 H1 H12) as HL.
  set (e1 := Z.max (floorLog2 q1 - 52) (-1074)).
  set (e2 := Z.max (floorLog2 q2 - 52) (-1074)).
  destruct (Z.eq_dec e1 e2) as [E|NE].
  - unfold roundPositive. fold e1 e2. rewrite <- E.
    apply Qmult_le_r; [apply pow2_pos|]. rewrite <- Zle_Qle.
    apply roundHalfEven_mono.
    apply Qmult_le_r; [apply Qinv_lt_0_compat, pow2_pos|exact H12].
  - assert (He : (e1 < e2)%Z) by (unfold e1, e2 in *; lia).
    assert (He2 : e2 = (floorLog2 q2 - 52)%Z) by (unfold e1, e2 in *; lia).
    assert (HL' : (floorLog2 q1 + 1 <= floorLog2 q2)%Z) by (unfold e1, e2 in *; lia).
    destruct (floorLog2_spec q1 H1) as [_ U1].
    destruct (floorLog2_spec q2 H2) as [L2 _].
    set (v := pow2 (floorLog2 q2)) in *.
    assert (Hq1v : (q1 <= v)%Q).
    { apply Qlt_le_weak. eapply Qlt_le_trans; [exact U1|]. now apply pow2_le. }
    assert (Ev1 : (v == inject_Z (2 ^ (floorLog2 q2 - e1)) * pow2 e1)%Q).
    { unfold v. rewrite <- pow2_Z by lia. rewrite <- pow2_add. f_equiv. lia. }
    assert (Ev2 : (v == inject_Z (2 ^ 52) * pow2 e2)%Q).
    { unfold v. rewrite <- pow2_Z by lia. rewrite <- pow2_add. f_equiv. lia. }
    apply Qle_trans with v.
    + rewrite Ev1. apply roundPositive_below. fold e1. now rewrite <- Ev1.
    + rewrite Ev2. apply roundPositive_above. fold e2. now rewrite <- Ev2.
Qed.

Lemma toDouble_mono (q1 q2 : Q) : (q1 <= q2)%Q -> (toDouble q1 <= toDouble q2)%Q.
Proof.
  intros H. unfold toDouble.
  destruct (q1 ?= 0)%Q eqn:C1; destruct (q2 ?= 0)%Q eqn:C2;
    qcompare C1; qcompare C2; try (exfalso; lra).
  - apply Qle_refl.
  - now apply roundPositive_nonneg.
  - assert (0 <= roundPositive (- q1))%Q by (apply roundPositive_nonneg; lra). lra.
  - assert (roundPositive (- q2) <= roundPositive (- q1))%Q
      by (apply roundPositive_mono; lra). lra.
  - assert (0 <= roundPositive (- q1))%Q by (apply roundPositive_nonneg; lra).
    assert (0 <= roundPositive q2)%Q by (apply roundPositive_nonneg; lra). lra.
  - now apply roundPositive_mono.
Qed.

Lemma toDouble_comp (q1 q2 : Q) : (q1 == q2)%Q -> (toDouble q1 == toDouble q2)%Q.
Proof.
  intros H. apply Qle_antisym; apply toDouble_mono; lra.
Qed.

(** ** Options and delay bounds *)

Lemma mathRound_monotone (x y : Q) : (x <= y)%Q -> (mathRound x <= mathRound y)%Z.
Proof. intros H. unfold mathRound. apply Qfloor_resp_le. lra. Qed.

Lemma orNumber_finite (written fallback : Q) :
  ~ (toDouble written == 0)%Q -> orNumber (Finite written) fallback = toDouble written.
Proof.
  intros H. unfold orNumber. destruct (Qeq_bool (toDouble written) 0) eqn:E; [|reflexivity].
  apply Qeq_bool_iff in E. contradiction.
Qed.

Lemma greater_false (a b : Q) :
  greater (Finite a) (Finite b) = false <-> (toDouble a <= toDouble b)%Q.
Proof.
  unfold greater. rewrite Qle_alt.
  destruct (toDouble a ?= toDouble b)%Q; split; congruence.
Qed.

(** X24. For options that passed the check and whose two delays are
    numbers (not [NaN]) other than zero, the bounds the loop uses are
    ordered: [minMs <= maxMs]. *)
Theorem checked_delays_are_ordered (args : CliArgs) (lower upper : Q) :
  check args = None ->
  delayMin (options args) = Finite lower ->
  delayMax (options args) = Finite upper ->
  ~ (toDouble lower == 0)%Q ->
  ~ (toDouble upper == 0)%Q ->
  (minMsOf (options args) <= maxMsOf (options args))%Z.
Proof.
  intros Hcheck Emin Emax Hmin Hmax. unfold minMsOf, maxMsOf.
  rewrite Emin, Emax, (orNumber_finite _ 2 Hmin), (orNumber_finite _ 5 Hmax).
  apply mathRound_monotone, toDouble_mono.
  assert (Hle : (toDouble lower <= toDouble upper)%Q).
  { apply greater_false. unfold check in Hcheck. rewrite Emin, Emax in Hcheck.
    destruct (_ && _ && _ && _); [discriminate|].
    destruct (_ && _); [discriminate|].
    destruct (greater (Finite lower) (Finite upper)); [discriminate|reflexivity]. }
  lra.
Qed.

Lemma checked_delays_are_ordered_witness :
  let args := {| message := Some "Hi"; messageFile := None; image := None; video := None;
                 options := {| delayMin := Finite (5005 # 10000); delayMax := Finite (13 # 2);
                               countryCode := "91"; headless := false |} |} in
  check args = None
  /\ delayMin (options args) = Finite (5005 # 10000)
  /\ delayMax (options args) = Finite (13 # 2)
  /\ ~ (toDouble (5005 # 10000) == 0)%Q
  /\ ~ (toDouble (13 # 2) == 0)%Q
  /\ (minMsOf (options args) <= maxMsOf (options args))%Z.
Proof.
  intros args.
  assert (H0 : check args = None) by (vm_compute; reflexivity).
  assert (H1 : ~ (toDouble (5005 # 10000) == 0)%Q) by (vm_compute; discriminate).
  assert (H2 : ~ (toDouble (13 # 2) == 0)%Q) by (vm_compute; discriminate).
  split; [exact H0|]. split; [reflexivity|]. split; [reflexivity|].
  split; [exact H1|]. split; [exact H2|].
  exact (checked_delays_are_ordered args (5005 # 10000) (13 # 2) H0 eq_refl eq_refl H1 H2).
Defined.

(** The two products are doubles: a minimum of 0.5005 s is 500 ms, where
    the exact product 500.5 would round to 501. *)
Example delay_product_is_rounded :
  minMsOf {| delayMin := Finite (5005 # 10000); delayMax := Finite 5;
             countryCode := EmptyString; headless := false |} = 500%Z.
Proof. vm_compute. reflexivity. Qed.

(** X25. A minimum delay that is zero or not a number, with a maximum
    above zero and below a second and a half, passes the check, but the
    loop then uses a lower bound of 2000 ms above its upper bound. *)
Theorem zero_minimum_inverts_bounds (args : CliArgs) (upper : Q) :
  given (message args) = true ->
  given (messageFile args) = false ->
  delayMin (options args) = NotANumber
  \/ (exists lower, delayMin (options args) = Finite lower /\ (lower == 0)%Q) ->
  delayMax (options args) = Finite upper ->
  (0 < toDouble upper)%Q ->
  (upper < 3 # 2)%Q ->
  check args = None
  /\ minMsOf (options args) = 2000%Z
  /\ (maxMsOf (options args) < minMsOf (options args))%Z.
Proof.
  intros Hmsg Hfile Hmin Emax Hpos Hsmall.
  assert (Hzero : forall lower, (lower == 0)%Q -> (toDouble lower == 0)%Q).
  { intros lower H. now rewrite (toDouble_comp lower 0 H). }
  assert (Hminms : minMsOf (options args) = 2000%Z).
  { unfold minMsOf, orNumber. destruct Hmin as [->|(lower & -> & H0)].
    - vm_compute. reflexivity.
    - apply Hzero, Qeq_bool_iff in H0. rewrite H0. vm_compute. reflexivity. }
  split; [|split; [exact Hminms|]].
  - unfold check. rewrite Hmsg, Hfile, Emax. simpl.
    destruct Hmin as [->|(lower & -> & H0)]; [reflexivity|].
    assert (Hle : greater (Finite lower) (Finite upper) = false).
    { apply greater_false. rewrite (Hzero lower H0). now apply Qlt_le_weak. }
    now rewrite Hle.
  - rewrite Hminms. unfold maxMsOf. rewrite Emax, orNumber_finite; [|lra].
    assert (H15 : (toDouble upper <= 3 # 2)%Q).
    { assert (E : (toDouble (3 # 2) == 3 # 2)%Q) by (vm_compute; reflexivity).
      rewrite <- E. apply toDouble_mono. now apply Qlt_le_weak. }
    assert (H1500 : (toDouble (toDouble upper * 1000) <= 1500)%Q).
    { assert (E : (toDouble 1500 == 1500)%Q) by (vm_compute; reflexivity).
      rewrite <- E. apply toDouble_mono. lra. }
    apply Z.le_lt_trans with (mathRound 1500); [|vm_compute; reflexivity].
    now apply mathRound_monotone.
Qed.

Lemma zero_minimum_inverts_bounds_witness :
  let args := {| message := Some "Hi"; messageFile := None; image := None; video := None;
                 options := {| delayMin := NotANumber; delayMax := Finite 1;
                               countryCode := EmptyString; headless := false |} |} in
  given (message args) = true
  /\ given (messageFile args) = false
  /\ (delayMin (options args) = NotANumber
      \/ (exists lower, delayMin (options args) = Finite lower /\ (lower == 0)%Q))
  /\ delayMax (options args) = Finite 1
  /\ (0 < toDouble 1)%Q
  /\ (1 < 3 # 2)%Q
  /\ check args = None
  /\ minMsOf (options args) = 2000%Z
  /\ (maxMsOf (options args) < minMsOf (options args))%Z.
Proof.
  intros args.
  assert (H1 : given (message args) = true) by reflexivity.
  assert (H2 : given (messageFile args) = false) by reflexivity.
  assert (H3 : delayMin (options args) = NotANumber
               \/ (exists lower, delayMin (options args) = Finite lower /\ (lower == 0)%Q))
    by (left; reflexivity).
  assert (H4 : (0 < toDouble 1)%Q) by (vm_compute; reflexivity).
  assert (H5 : (1 < 3 # 2)%Q) by reflexivity.
  split; [exact H1|]. split; [exact H2|]. split; [exact H3|]. split; [reflexivity|].
  split; [exact H4|]. split; [exact H5|].
  exact (zero_minimum_inverts_bounds args 1 H1 H2 H3 eq_refl H4 H5).
Defined.

(** X26. Whatever the order of the two bounds, the pacing delay lies
    between them. *)
Theorem mathRound_between (a b : Z) (r : Q) :
  (0 <= r)%Q -> (r < 1)%Q ->
  (Z.min a b <= mathRound (randomBetween (inject_Z a) (inject_Z b) r) <= Z.max a b)%Z.
Proof.
  intros H0 H1. destruct (Z.le_gt_cases a b) as [Hab|Hba].
  - pose proof (mathRound_bounds a b r Hab H0 H1). lia.
  - unfold mathRound, randomBetween.
    assert (Hq : (inject_Z b < inject_Z a)%Q) by (rewrite <- Zlt_Qlt; exact Hba).
    set (x := inject_Z a) in *. set (y := inject_Z b) in *.
    assert (Hprod : (0 <= r * (x - y))%Q) by (apply Qmult_le_0_compat; lra).
    assert (Hprod' : (r * (x - y) <= x - y)%Q).
    { setoid_replace (x - y)%Q with (1 * (x - y))%Q at 2 by ring.
      apply Qmult_le_compat_r; lra. }
    assert (Heq : (x + r * (y - x) == x - r * (x - y))%Q) by ring.
    assert (Hlo : (b <= Qfloor (x + r * (y - x) + (1 # 2)))%Z).
    { rewrite <- (Qfloor_Z b). apply Qfloor_resp_le. fold y. lra. }
    assert (Hhi : (Qfloor (x + r * (y - x) + (1 # 2)) <= a)%Z).
    { pose proof (Qfloor_le (x + r * (y - x) + (1 # 2))) as Hf.
      apply Z.lt_succ_r. rewrite Zlt_Qlt. unfold Z.succ. rewrite inject_Z_plus. fold x.
      change (inject_Z 1) with 1%Q. lra. }
    lia.
Qed.

Lemma mathRound_between_witness :
  (0 <= 1 # 2)%Q /\ (1 # 2 < 1)%Q
  /\ (Z.min 2000 1000
      <= mathRound (randomBetween (inject_Z 2000) (inject_Z 1000) (1 # 2))
      <= Z.max 2000 1000)%Z.
Proof.
  assert (H0 : (0 <= 1 # 2)%Q) by discriminate.
  assert (H1 : (1 # 2 < 1)%Q) by reflexivity.
  split; [exact H0|]. split; [exact H1|].
  exact (mathRound_between 2000 1000 (1 # 2) H0 H1).
Defined.

(** ** Message and attachments *)

(** X27. [readMessage] fails in two cases only, both with no inline message
    and a message file named: the file is missing, and the error names the
    resolved path; or the file is there and reading it throws, and that
    error is passed on. An inline message is returned without looking at
    the file system. *)
Theorem readMessage_failure (fs : FileSystem) (inline file : option string)
    (err : Thrown) :
  readMessage fs inline file = inl err
  <-> given inline = false
      /\ given file = true
      /\ ((fileExists fs (ensureAbs fs file) = false
           /\ err = newError ("Message file not found: " ++ pathText (ensureAbs fs file)))
          \/ (fileExists fs (ensureAbs fs file) = true
              /\ readFileSync fs (pathText (ensureAbs fs file)) = inl err)).
Proof.
  unfold readMessage. split.
  - destruct (given inline); [discriminate|].
    destruct (given file); [|discriminate].
    destruct (fileExists fs (ensureAbs fs file)); simpl.
    + intros H. auto.
    + intros [= <-]. auto.
  - intros (-> & -> & [(-> & ->)|(-> & H)]); [reflexivity|exact H].
Qed.

(** Both failures on the example file system: a missing file, and a
    directory given as the message file. *)
Example readMessage_failures :
  readMessage demoFiles None (Some "/missing.txt")
  = inl (newError "Message file not found: /missing.txt")
  /\ fileExists demoFiles (ensureAbs demoFiles (Some "/dir")) = true
  /\ readMessage demoFiles None (Some "/dir")
     = inl (newError "EISDIR: illegal operation on a directory, read").
Proof. vm_compute. auto. Qed.

(** X28. The attachment list [main] builds holds at most two paths, the image
    before the video, and every path in it exists. *)
Theorem collectAttachments_verified (fs : FileSystem) (image video : option string)
    (attachments : list string) :
  collectAttachments fs image video = inr attachments ->
  length attachments <= 2
  /\ attachments
     = ((if given (ensureAbs fs image) then [pathText (ensureAbs fs image)] else [])
        ++ (if given (ensureAbs fs video) then [pathText (ensureAbs fs video)] else []))%list
  /\ forall path, In path attachments -> existsSync fs path = true.
Proof.
  unfold collectAttachments.
  assert (Hexists : forall p, fileExists fs p = true -> existsSync fs (pathText p) = true).
  { intros [text|]; unfold fileExists; simpl; [|discriminate].
    intros H. now apply andb_true_iff in H as [_ H]. }
  destruct (given (ensureAbs fs image)) eqn:Gi;
    [destruct (fileExists fs (ensureAbs fs image)) eqn:Ei; simpl; [|discriminate]|];
    (destruct (given (ensureAbs fs video)) eqn:Gv;
     [destruct (fileExists fs (ensureAbs fs video)) eqn:Ev; simpl; [|discriminate]|]);
    intros [= <-]; simpl; (split; [lia|split; [reflexivity|]]); intros path Hin;
    simpl in Hin; intuition (subst; auto).
Qed.

Lemma collectAttachments_verified_witness :
  collectAttachments demoFiles (Some "/a.png") None = inr ["/a.png"]
  /\ length ["/a.png"] <= 2
  /\ ["/a.png"]
     = ((if given (ensureAbs demoFiles (Some "/a.png"))
         then [pathText (ensureAbs demoFiles (Some "/a.png"))] else [])
        ++ (if given (ensureAbs demoFiles None)
            then [pathText (ensureAbs demoFiles None)] else []))%list
  /\ forall path, In path ["/a.png"] -> existsSync demoFiles path = true.
Proof.
  assert (H : collectAttachments demoFiles (Some "/a.png") None = inr ["/a.png"])
    by reflexivity.
  split; [exact H|].
  exact (collectAttachments_verified demoFiles (Some "/a.png") None ["/a.png"] H).
Defined.
